(** * subdirfs: the subdirectory-scoped filesystem view of go-billy

    A shallow embedding of [subdirfs/subdir.go] together with the parts of
    the Go standard library it calls ([strings.Replace], [filepath.Join],
    [filepath.Clean], [filepath.Base], [filepath.IsAbs], [filepath.Rel],
    all for a Unix target, where [os.PathSeparator] is the slash).

    Go strings are byte sequences: they are lists of [ascii] here.  The
    underlying [billy.Filesystem] is an interface: it is a record of
    operations over an explicit state of the underlying store, so every
    theorem holds for every backend.  Go's [(value, error)] results are kept
    as pairs, a nil value or a nil error being [None]. *)

From Stdlib Require Import List Ascii ZArith Bool Arith Lia.
From Stdlib Require String.
Import ListNotations String.StringSyntax.
Delimit Scope string_scope with string.

Set Implicit Arguments.

(** Go's [string]. *)
Definition str : Type := list ascii.

(** A string literal of the source. *)
Definition txt (s : String.string) : str := String.list_ascii_of_string s.
Arguments txt s%_string.

Definition str_eqb (a b : str) : bool :=
  if list_eq_dec ascii_dec a b then true else false.

(** ** Package [strings] *)
Module strings.

(** [strings.HasPrefix(s, prefix)]. *)
Fixpoint HasPrefix (s prefix : str) {struct prefix} : bool :=
  match prefix, s with
  | [], _ => true
  | p :: prefix', c :: s' => Ascii.eqb c p && HasPrefix s' prefix'
  | _ :: _, [] => false
  end.

(** [strings.Join(elems, sep)]. *)
Fixpoint Join (elems : list str) (sep : str) : str :=
  match elems with
  | [] => []
  | [e] => e
  | e :: rest => e ++ sep ++ Join rest sep
  end.

(** The replacement loop of [strings.Replace] for a non-empty [old]:
    [skip] bytes of a matched occurrence are still to be passed over, and
    [n] replacements are still allowed (a negative [n] means no limit). *)
Fixpoint replaceLoop (s old new : str) (skip : nat) (n : Z) : str :=
  match s with
  | [] => []
  | c :: s' =>
      match skip with
      | S k => replaceLoop s' old new k n
      | O =>
          if negb (n =? 0)%Z && HasPrefix s old
          then new ++ replaceLoop s' old new (List.length old - 1) (n - 1)
          else c :: replaceLoop s' old new 0 n
      end
  end.

(** [strings.Replace(s, old, new, n)]: a copy of [s] with the first [n]
    non-overlapping instances of [old] replaced by [new]; [n < 0] lifts
    the limit.  With an empty [old] Go inserts [new] at rune boundaries,
    which needs a UTF-8 decoder: that branch is bytewise here, exact on
    ASCII text.  subdirfs only calls [Replace] with an empty [new], where
    an empty [old] takes the early return [old == new]. *)
Definition Replace (s old new : str) (n : Z) : str :=
  if str_eqb old new || (n =? 0)%Z then s
  else match old with
       | [] =>
           let fix ins (s : str) (n : Z) : str :=
             match s with
             | [] => []
             | c :: s' => c :: (if (n =? 0)%Z then s' else new ++ ins s' (n - 1)%Z)
             end in
           new ++ ins s (n - 1)%Z
       | _ :: _ => replaceLoop s old new 0 n
       end.

End strings.

(** ** Package [path/filepath], Unix flavour *)
Module filepath.

Definition Separator : ascii := "/"%char.

Definition IsPathSeparator (c : ascii) : bool := Ascii.eqb c Separator.

(** [filepath.IsAbs]: on Unix, whether the path begins with a slash. *)
Definition IsAbs (path : str) : bool :=
  strings.HasPrefix path [Separator].

(** The elements of a path: the maximal separator-free runs, so a string
    with k separators has k+1 (possibly empty) elements. *)
Fixpoint elements (path : str) : list str :=
  match path with
  | [] => [[]]
  | c :: path' =>
      if IsPathSeparator c then [] :: elements path'
      else match elements path' with
           | e :: es => (c :: e) :: es
           | [] => [[c]]
           end
  end.

Definition dot : str := txt ".".
Definition dotdot : str := txt "..".

(** One turn of the loop of [Clean], on the element starting at [r].  The
    output buffer is kept as the stack of the elements written so far, last
    one first.  Empty and [.] elements are skipped.  For [..] the buffer
    backtracks over its last element when that is a real one
    ([out.w > dotdot]); otherwise [..] is appended on a path that is not
    rooted and dropped on a rooted one. *)
Definition cleanStep (rooted : bool) (out : list str) (e : str) : list str :=
  if str_eqb e [] then out
  else if str_eqb e dot then out
  else if str_eqb e dotdot then
    match out with
    | top :: rest =>
        if str_eqb top dotdot
        then (if rooted then out else dotdot :: out)
        else rest
    | [] => if rooted then [] else [dotdot]
    end
  else e :: out.

Definition cleanElements (rooted : bool) (es : list str) : list str :=
  fold_left (cleanStep rooted) es [].

(** [filepath.Clean]: the shortest path equivalent to [path] by purely
    lexical processing. *)
Definition Clean (path : str) : str :=
  match path with
  | [] => dot
  | c :: _ =>
      let rooted := IsPathSeparator c in
      let out := strings.Join (rev (cleanElements rooted (elements path)))
                              [Separator] in
      if rooted then Separator :: out
      else match out with
           | [] => dot
           | _ :: _ => out
           end
  end.

(** [filepath.Join]: joins the elements from the first non-empty one on
    with separators and cleans the result; empty when all are empty. *)
Fixpoint Join (elem : list str) : str :=
  match elem with
  | [] => []
  | [] :: rest => Join rest
  | _ :: _ => Clean (strings.Join elem [Separator])
  end.

Fixpoint dropWhile {A} (f : A -> bool) (l : list A) : list A :=
  match l with
  | [] => []
  | x :: l' => if f x then dropWhile f l' else l
  end.

Fixpoint takeWhile {A} (f : A -> bool) (l : list A) : list A :=
  match l with
  | [] => []
  | x :: l' => if f x then x :: takeWhile f l' else []
  end.

(** [filepath.Base]: the last element of [path], after removing trailing
    separators; [.] for an empty path, a single separator for a path of
    separators only. *)
Definition Base (path : str) : str :=
  match path with
  | [] => dot
  | _ :: _ =>
      let stripped := dropWhile IsPathSeparator (rev path) in
      let last := rev (takeWhile (fun c => negb (IsPathSeparator c)) stripped) in
      match last with
      | [] => [Separator]
      | _ :: _ => last
      end
  end.

(** What is left of a string in the loop of [Rel] is empty. *)
Definition exhausted (es : list str) : bool :=
  match es with
  | [] => true
  | [ [] ] => true
  | _ => false
  end.

(** The loop of [Rel] that positions base and target at their first
    differing elements.  The strings from [b0] and [t0] on are given by
    their elements.  The result holds [base[b0:bi]] (empty when the loop
    ended because a string was used up) and what is left of both. *)
Fixpoint relLoop (bs ts : list str) : str * list str * list str :=
  match bs, ts with
  | b :: bs', t :: ts' =>
      if exhausted bs || exhausted ts then ([], bs, ts)
      else if str_eqb t b then relLoop bs' ts'
      else (b, bs, ts)
  | _, _ => ([], bs, ts)
  end.

(** The error of [Rel]: "Rel: can't make targpath relative to basepath". *)
Inductive RelError : Type :=
  CantMakeRelative (targpath basepath : str).

(** [filepath.Rel(basepath, targpath)]. *)
Definition Rel (basepath targpath : str) : str * option RelError :=
  let base := Clean basepath in
  let targ := Clean targpath in
  if str_eqb targ base then (dot, None)
  else
    let base := if str_eqb base dot then [] else base in
    if negb (Bool.eqb (IsAbs base) (IsAbs targ))
    then ([], Some (CantMakeRelative targpath basepath))
    else
      let '(cur, bs, ts) := relLoop (elements base) (elements targ) in
      if str_eqb cur dotdot
      then ([], Some (CantMakeRelative targpath basepath))
      else
        let brest := strings.Join bs [Separator] in
        let trest := strings.Join ts [Separator] in
        match brest with
        | _ :: _ =>
            let seps := List.length bs - 1 in
            (dotdot
               ++ concat (repeat (Separator :: dotdot) seps)
               ++ match trest with
                  | [] => []
                  | _ :: _ => Separator :: trest
                  end,
             None)
        | [] => (trest, None)
        end.

(** A string without separator, as every element of a path is. *)
Definition sepFree (e : str) : Prop :=
  Forall (fun c => IsPathSeparator c = false) e.

(** A real path element, which [Clean] copies to its output: not empty, not [.], not [..], without separator. *)
Definition isName (e : str) : Prop :=
  e <> [] /\ e <> dot /\ e <> dotdot /\ sepFree e.

End filepath.

(** ** The [billy] interfaces the view consumes *)
Module billy.

(** [os.FileMode], a 32-bit unsigned integer. *)
Definition FileMode : Type := N.

(** [billy.FileInfo] (that is [os.FileInfo]), by its observations.
    [ModTime] is in nanoseconds since the epoch; [Sys] is opaque. *)
Class FileInfo (I : Type) : Type := {
  Name : I -> str;
  Size : I -> Z;
  Mode : I -> FileMode;
  ModTime : I -> Z;
  IsDir : I -> bool;
  Sys : I -> option Z
}.

(** [billy.File]: only [Filename] is observed by the view; reading,
    writing, seeking and closing are left to the handle. *)
Class File (F : Type) : Type := {
  Filename : F -> str
}.

Section Interface.
(** [W] is the state of the underlying store, [E] its error values,
    [F] its file handles and [I] its file infos.  A nil interface value
    is [None]. *)
Variables W E F I : Type.

(** [billy.Symlinker], the optional capability. *)
Record Symlinker : Type := {
  Symlink : str -> str -> W -> option E * W;
  Readlink : str -> W -> (str * option E) * W
}.

(** [billy.Filesystem].  [asSymlinker] is the type assertion
    [fs.(billy.Symlinker)]: [None] when the backend lacks the methods.
    [Dir] and [Base] of the backend are never called by the view. *)
Record Filesystem : Type := {
  Create : str -> W -> (option F * option E) * W;
  Open : str -> W -> (option F * option E) * W;
  OpenFile : str -> Z -> FileMode -> W -> (option F * option E) * W;
  TempFile : str -> str -> W -> (option F * option E) * W;
  Rename : str -> str -> W -> option E * W;
  Remove : str -> W -> option E * W;
  MkdirAll : str -> FileMode -> W -> option E * W;
  Stat : str -> W -> (option I * option E) * W;
  ReadDir : str -> W -> (list I * option E) * W;
  Join : list str -> str;
  asSymlinker : option Symlinker
}.
End Interface.

End billy.

(** ** Package [subdirfs] *)
Module subdirfs.

(** A call either returns or panics (a nil handle dereferenced). *)
Inductive outcome (A : Type) : Type :=
| Returns (a : A)
| Panics.
Arguments Panics {A}.

Section View.
Context {W E F I : Type} `{billy.File F} `{billy.FileInfo I}.

(** Go's [error] as the view returns it: the package's own sentinel
    [ErrSymlinkNotSupported], the error of [filepath.Rel], or an error
    value of the underlying filesystem, handed on as it is.  Go has one
    space of error values and does not mark where a value came from:
    [Underlying] records the origin only, and which value an error is, is
    told by [nesting.isErrSymlinkNotSupported]. *)
Inductive error : Type :=
| ErrSymlinkNotSupported
| RelFailed (e : filepath.RelError)
| Underlying (e : E).

Record subdirFs : Type := {
  underlying : billy.Filesystem W E F I;
  base : str
}.

Definition New (fs : billy.Filesystem W E F I) (base : str) : subdirFs :=
  {| underlying := fs; base := base |}.

Definition Base (s : subdirFs) : str := base s.

Definition Join (s : subdirFs) (elem : list str) : str :=
  billy.Join (underlying s) elem.

Definition underlyingPath (s : subdirFs) (filename : str) : str :=
  Join s [Base s; filename].

(** Modelled from the spec: the Scoped File Handle ([newFile] and the
    [file] type are not part of the sources at hand).  It holds the view
    that made it, the underlying handle and the view-relative name, and
    overrides only the reported filename. *)
Record file : Type := {
  owner : subdirFs;
  underlyingFile : option F;
  name : str
}.

Definition newFile (s : subdirFs) (f : option F) (filename : str) : file :=
  {| owner := s; underlyingFile := f; name := filename |}.

#[global] Instance file_File : billy.File file :=
  {| billy.Filename := name |}.

(** Modelled from the spec: the Scoped Metadata Adapter ([newFileInfo]
    and the [fileInfo] type are not part of the sources at hand).  It
    holds the name to report and the wrapped info; every other
    attribute is read from the wrapped info, so it is undefined on a
    wrapped nil. *)
Record fileInfo : Type := {
  filename : str;
  fi : option I
}.

Definition newFileInfo (filename : str) (fi : option I) : fileInfo :=
  {| filename := filename; fi := fi |}.

Definition Name (x : fileInfo) : str := filename x.
Definition Size (x : fileInfo) : option Z := option_map billy.Size (fi x).
Definition Mode (x : fileInfo) : option billy.FileMode :=
  option_map billy.Mode (fi x).
Definition ModTime (x : fileInfo) : option Z :=
  option_map billy.ModTime (fi x).
Definition IsDir (x : fileInfo) : option bool :=
  option_map billy.IsDir (fi x).
Definition Sys (x : fileInfo) : option (option Z) :=
  option_map billy.Sys (fi x).

Definition Create (s : subdirFs) (filename : str) (w : W)
  : (option file * option error) * W :=
  let '((f, err), w) :=
    billy.Create (underlying s) (underlyingPath s filename) w in
  match err with
  | Some e => ((None, Some (Underlying e)), w)
  | None => ((Some (newFile s f filename), None), w)
  end.

Definition Open (s : subdirFs) (filename : str) (w : W)
  : (option file * option error) * W :=
  let '((f, err), w) :=
    billy.Open (underlying s) (underlyingPath s filename) w in
  match err with
  | Some e => ((None, Some (Underlying e)), w)
  | None => ((Some (newFile s f filename), None), w)
  end.

Definition OpenFile (s : subdirFs) (filename : str) (flag : Z)
           (mode : billy.FileMode) (w : W)
  : (option file * option error) * W :=
  let '((f, err), w) :=
    billy.OpenFile (underlying s) (underlyingPath s filename) flag mode w in
  match err with
  | Some e => ((None, Some (Underlying e)), w)
  | None => ((Some (newFile s f filename), None), w)
  end.

(** [f.Filename()] on a nil [f] is a nil dereference. *)
Definition TempFile (s : subdirFs) (dir prefix : str) (w : W)
  : outcome ((option file * option error) * W) :=
  let '((f, err), w) :=
    billy.TempFile (underlying s) (underlyingPath s dir) prefix w in
  match err with
  | Some e => Returns ((None, Some (Underlying e)), w)
  | None =>
      match f with
      | None => Panics
      | Some f' =>
          Returns
            ((Some (newFile s f
                      (Join s [dir; filepath.Base (billy.Filename f')])),
              None), w)
      end
  end.

Definition Rename (s : subdirFs) (from to : str) (w : W)
  : option error * W :=
  let '(err, w) :=
    billy.Rename (underlying s)
                 (underlyingPath s from) (underlyingPath s to) w in
  (option_map Underlying err, w).

Definition Remove (s : subdirFs) (path : str) (w : W)
  : option error * W :=
  let '(err, w) := billy.Remove (underlying s) (underlyingPath s path) w in
  (option_map Underlying err, w).

Definition MkdirAll (s : subdirFs) (filename : str)
           (perm : billy.FileMode) (w : W) : option error * W :=
  let fullpath := Join s [base s; filename] in
  let '(err, w) := billy.MkdirAll (underlying s) fullpath perm w in
  (option_map Underlying err, w).

Definition Stat (s : subdirFs) (filename : str) (w : W)
  : (option fileInfo * option error) * W :=
  let fullpath := underlyingPath s filename in
  let '((fi, err), w) := billy.Stat (underlying s) fullpath w in
  match err with
  | Some e => ((None, Some (Underlying e)), w)
  | None => ((Some (newFileInfo (filepath.Base fullpath) fi), None), w)
  end.

(** The loop of [ReadDir] rewrites the slice the underlying filesystem
    returned, position by position; the entries of a listing are proper
    (non-nil) values. *)
Definition ReadDir (s : subdirFs) (path : str) (w : W)
  : (list fileInfo * option error) * W :=
  let prefix := underlyingPath s path in
  let '((fis, err), w) := billy.ReadDir (underlying s) prefix w in
  match err with
  | Some e => (([], Some (Underlying e)), w)
  | None =>
      ((map (fun fi =>
               let rn := strings.Replace (billy.Name fi) prefix [] 1 in
               newFileInfo rn (Some fi))
            fis,
        None), w)
  end.

Definition Dir (s : subdirFs) (path : str) : subdirFs :=
  New (underlying s) (underlyingPath s path).

Definition Symlink (s : subdirFs) (oldname newname : str) (w : W)
  : option error * W :=
  match billy.asSymlinker (underlying s) with
  | None => (Some ErrSymlinkNotSupported, w)
  | Some fs =>
      let oldname :=
        if filepath.IsAbs oldname
        then filepath.Separator :: underlyingPath s oldname
        else oldname in
      let newname := underlyingPath s newname in
      let '(err, w) := billy.Symlink fs oldname newname w in
      (option_map Underlying err, w)
  end.

Definition Readlink (s : subdirFs) (name : str) (w : W)
  : (str * option error) * W :=
  match billy.asSymlinker (underlying s) with
  | None => (([], Some ErrSymlinkNotSupported), w)
  | Some fs =>
      let fullpath := underlyingPath s name in
      let '((target, err), w) := billy.Readlink fs fullpath w in
      match err with
      | Some e => (([], Some (Underlying e)), w)
      | None =>
          if negb (filepath.IsAbs target) then ((target, None), w)
          else
            let base := filepath.Separator :: base s in
            let '(target, err) := filepath.Rel base target in
            match err with
            | Some e => (([], Some (RelFailed e)), w)
            | None => ((filepath.Separator :: target, None), w)
            end
      end
  end.

End View.
Arguments error : clear implicits.
Arguments subdirFs : clear implicits.
Arguments file W E F I : clear implicits.
Arguments fileInfo : clear implicits.

End subdirfs.

(** ** A small in-memory backend

    A stand-in for a concrete [billy.Filesystem], used to run the view on
    concrete inputs.  Nodes are kept by their cleaned path; symbolic links
    store their target as it was given. *)
Module testfs.

Record info : Type := {
  iName : str;
  iSize : Z;
  iMode : billy.FileMode;
  iModTime : Z;
  iIsDir : bool
}.

#[global] Instance info_FileInfo : billy.FileInfo info := {|
  billy.Name := iName;
  billy.Size := iSize;
  billy.Mode := iMode;
  billy.ModTime := iModTime;
  billy.IsDir := iIsDir;
  billy.Sys := fun _ => None
|}.

Record handle : Type := { hName : str }.

#[global] Instance handle_File : billy.File handle :=
  {| billy.Filename := hName |}.

Inductive err : Type := ErrNotExist | ErrExist.

Record world : Type := {
  nodes : list (str * info);
  links : list (str * str);
  temps : nat
}.

Fixpoint lookup {A} (k : str) (l : list (str * A)) : option A :=
  match l with
  | [] => None
  | (k', v) :: l' => if str_eqb k k' then Some v else lookup k l'
  end.

Definition remove {A} (k : str) (l : list (str * A)) : list (str * A) :=
  filter (fun kv => negb (str_eqb k (fst kv))) l.

Definition node (path : str) (size : Z) (dir : bool) : str * info :=
  (path, {| iName := filepath.Base path; iSize := size;
            iMode := if dir then 493%N else 420%N;
            iModTime := 0; iIsDir := dir |}).

Definition addNode (path : str) (dir : bool) (w : world) : world :=
  {| nodes := node path 0 dir :: remove path (nodes w);
     links := links w; temps := temps w |}.

Definition Create (path : str) (w : world)
  : (option handle * option err) * world :=
  match lookup path (nodes w) with
  | Some i =>
      if iIsDir i then ((None, Some ErrExist), w)
      else ((Some {| hName := path |}, None), addNode path false w)
  | None => ((Some {| hName := path |}, None), addNode path false w)
  end.

Definition Open (path : str) (w : world)
  : (option handle * option err) * world :=
  match lookup path (nodes w) with
  | Some _ => ((Some {| hName := path |}, None), w)
  | None => ((None, Some ErrNotExist), w)
  end.

(** [os.O_CREATE] is bit 6 of the flags. *)
Definition OpenFile (path : str) (flag : Z) (mode : billy.FileMode)
           (w : world) : (option handle * option err) * world :=
  if Z.testbit flag 6 then Create path w else Open path w.

Definition TempFile (dir prefix : str) (w : world)
  : (option handle * option err) * world :=
  let leaf := prefix ++ repeat "0"%char (S (temps w)) in
  let path := filepath.Join [dir; leaf] in
  ((Some {| hName := path |}, None),
   {| nodes := node path 0 false :: nodes w;
      links := links w; temps := S (temps w) |}).

Definition Rename (from to : str) (w : world) : option err * world :=
  match lookup from (nodes w) with
  | Some i =>
      (None,
       {| nodes := node to (iSize i) (iIsDir i)
                     :: remove to (remove from (nodes w));
          links := links w; temps := temps w |})
  | None => (Some ErrNotExist, w)
  end.

Definition Remove (path : str) (w : world) : option err * world :=
  match lookup path (nodes w) with
  | Some _ =>
      (None, {| nodes := remove path (nodes w);
                links := links w; temps := temps w |})
  | None => (Some ErrNotExist, w)
  end.

Definition MkdirAll (path : str) (perm : billy.FileMode) (w : world)
  : option err * world :=
  match lookup path (nodes w) with
  | Some i => if iIsDir i then (None, w) else (Some ErrExist, w)
  | None => (None, addNode path true w)
  end.

Definition Stat (path : str) (w : world)
  : (option info * option err) * world :=
  match lookup path (nodes w) with
  | Some i => ((Some i, None), w)
  | None => ((None, Some ErrNotExist), w)
  end.

(** The children of [path] are the nodes one element below it. *)
Definition ReadDir (path : str) (w : world)
  : (list info * option err) * world :=
  match lookup path (nodes w) with
  | Some _ =>
      ((map snd
            (filter (fun kv =>
                       str_eqb (fst kv)
                               (filepath.Join [path; filepath.Base (fst kv)])
                       && negb (str_eqb (fst kv) path))
                    (nodes w)),
        None), w)
  | None => (([], Some ErrNotExist), w)
  end.

Definition Symlink (oldname newname : str) (w : world)
  : option err * world :=
  match lookup newname (links w) with
  | Some _ => (Some ErrExist, w)
  | None =>
      (None, {| nodes := nodes w;
                links := (newname, oldname) :: links w;
                temps := temps w |})
  end.

Definition Readlink (name : str) (w : world)
  : (str * option err) * world :=
  match lookup name (links w) with
  | Some target => ((target, None), w)
  | None => (([], Some ErrNotExist), w)
  end.

Definition symlinker : billy.Symlinker world err :=
  {| billy.Symlink := Symlink; billy.Readlink := Readlink |}.

Definition backend (withSymlinks : bool)
  : billy.Filesystem world err handle info :=
  {| billy.Create := Create;
     billy.Open := Open;
     billy.OpenFile := OpenFile;
     billy.TempFile := TempFile;
     billy.Rename := Rename;
     billy.Remove := Remove;
     billy.MkdirAll := MkdirAll;
     billy.Stat := Stat;
     billy.ReadDir := ReadDir;
     billy.Join := filepath.Join;
     billy.asSymlinker := if withSymlinks then Some symlinker else None |}.

(** A store holding the directory [project] with two children, and a
    sibling [project-other] with one. *)
Definition sample : world :=
  {| nodes := [ node (txt "project") 0 true;
                node (txt "project/subproject") 7 false;
                node (txt "project/notes") 3 false;
                node (txt "project-other") 0 true;
                node (txt "project-other/file") 5 false ];
     links := [];
     temps := 0 |}.

(** The same store with one symbolic link in [project]. *)
Definition linked (target : str) : world :=
  {| nodes := nodes sample;
     links := [(txt "project/link", target)];
     temps := 0 |}.

Definition view (withSymlinks : bool) (base : str)
  : subdirfs.subdirFs world err handle info :=
  subdirfs.New (backend withSymlinks) base.

(** The view of [project], with and without the symlink capability. *)
Definition project : subdirfs.subdirFs world err handle info :=
  view true (txt "project").


(** The store after a temporary file was made in [project/tmp], and the
    handle the view gives for it. *)
Definition tmpWorld : world :=
  snd (TempFile (txt "project/tmp") (txt "x") sample).

Definition tmpHandle : subdirfs.file world err handle info :=
  subdirfs.newFile project (Some {| hName := txt "project/tmp/x0" |})
                   (txt "/tmp/x0").

End testfs.

(** ** Paths and links inside a view *)
Module scope.

(** A view-relative path stays inside the view when cleaning it as a
    relative path leaves no [..] element: it never climbs above the root
    of the view. *)
Definition staysInside (p : str) : bool :=
  forallb (fun e => negb (str_eqb e filepath.dotdot))
          (filepath.cleanElements false (filepath.elements p)).

(** A symlink-capable backend that keeps the target of a link as it was
    given and hands it back on [Readlink]. *)
Definition storesTargetsVerbatim {W E : Type} (sl : billy.Symlinker W E)
  : Prop :=
  forall (oldname newname : str) (w w1 : W),
    billy.Symlink sl oldname newname w = (None, w1) ->
    exists w2, billy.Readlink sl newname w1 = ((oldname, None), w2).

End scope.

(** ** The operations of the view as data

    One constructor per fallible operation of [subdirFs], so that
    statements about every operation can quantify over calls. *)
Module calls.
Import subdirfs.

Section Calls.
Context {W E F I : Type} `{billy.File F} `{billy.FileInfo I}.

Inductive call : Type :=
| CallCreate (filename : str)
| CallOpen (filename : str)
| CallOpenFile (filename : str) (flag : Z) (mode : billy.FileMode)
| CallTempFile (dir prefix : str)
| CallRename (from to : str)
| CallRemove (path : str)
| CallMkdirAll (filename : str) (perm : billy.FileMode)
| CallStat (filename : str)
| CallReadDir (path : str)
| CallSymlink (oldname newname : str)
| CallReadlink (name : str).

(** What a call hands back besides its error. *)
Inductive value : Type :=
| Handle (f : option (file W E F I))
| Info (fi : option (fileInfo I))
| Infos (fis : list (fileInfo I))
| Text (s : str)
| Nothing.

(** The zero value of the result: a nil handle, nil metadata, a nil slice,
    the empty string. *)
Definition isZero (v : value) : bool :=
  match v with
  | Handle None | Info None | Infos [] | Text [] | Nothing => true
  | _ => false
  end.

Definition perform (s : subdirFs W E F I) (c : call) (w : W)
  : outcome ((value * option (error E)) * W) :=
  match c with
  | CallCreate filename =>
      let '((f, err), w) := Create s filename w in
      Returns ((Handle f, err), w)
  | CallOpen filename =>
      let '((f, err), w) := Open s filename w in
      Returns ((Handle f, err), w)
  | CallOpenFile filename flag mode =>
      let '((f, err), w) := OpenFile s filename flag mode w in
      Returns ((Handle f, err), w)
  | CallTempFile dir prefix =>
      match TempFile s dir prefix w with
      | Returns ((f, err), w) => Returns ((Handle f, err), w)
      | Panics => Panics
      end
  | CallRename from to =>
      let '(err, w) := Rename s from to w in Returns ((Nothing, err), w)
  | CallRemove path =>
      let '(err, w) := Remove s path w in Returns ((Nothing, err), w)
  | CallMkdirAll filename perm =>
      let '(err, w) := MkdirAll s filename perm w in
      Returns ((Nothing, err), w)
  | CallStat filename =>
      let '((fi, err), w) := Stat s filename w in
      Returns ((Info fi, err), w)
  | CallReadDir path =>
      let '((fis, err), w) := ReadDir s path w in
      Returns ((Infos fis, err), w)
  | CallSymlink oldname newname =>
      let '(err, w) := Symlink s oldname newname w in
      Returns ((Nothing, err), w)
  | CallReadlink name =>
      let '((target, err), w) := Readlink s name w in
      Returns ((Text target, err), w)
  end.

(** The one call a view operation makes on the underlying filesystem, by
    its error and the state it leaves; [None] when the operation makes no
    such call (the symlink capability is absent). *)
Definition underlyingCall (s : subdirFs W E F I) (c : call) (w : W)
  : option (option E * W) :=
  let fs := underlying s in
  let drop {A} (r : (A * option E) * W) := (snd (fst r), snd r) in
  match c with
  | CallCreate filename =>
      Some (drop (billy.Create fs (underlyingPath s filename) w))
  | CallOpen filename =>
      Some (drop (billy.Open fs (underlyingPath s filename) w))
  | CallOpenFile filename flag mode =>
      Some (drop (billy.OpenFile fs (underlyingPath s filename) flag mode w))
  | CallTempFile dir prefix =>
      Some (drop (billy.TempFile fs (underlyingPath s dir) prefix w))
  | CallRename from to =>
      Some (billy.Rename fs (underlyingPath s from) (underlyingPath s to) w)
  | CallRemove path =>
      Some (billy.Remove fs (underlyingPath s path) w)
  | CallMkdirAll filename perm =>
      Some (billy.MkdirAll fs (Join s [base s; filename]) perm w)
  | CallStat filename =>
      Some (drop (billy.Stat fs (underlyingPath s filename) w))
  | CallReadDir path =>
      Some (drop (billy.ReadDir fs (underlyingPath s path) w))
  | CallSymlink oldname newname =>
      match billy.asSymlinker fs with
      | None => None
      | Some sl =>
          Some (billy.Symlink sl
                  (if filepath.IsAbs oldname
                   then filepath.Separator :: underlyingPath s oldname
                   else oldname)
                  (underlyingPath s newname) w)
      end
  | CallReadlink name =>
      match billy.asSymlinker fs with
      | None => None
      | Some sl => Some (drop (billy.Readlink sl (underlyingPath s name) w))
      end
  end.

End Calls.
End calls.

(** ** Views as underlying filesystems, and the identity of errors

    What [New] returns is a [billy.Filesystem] again, so a view can lie
    under another view.  The errors of the underlying filesystem are
    handed on as the values they are (the [return] of [Symlink] and the
    first error [return] of [Readlink]), so an error of the inner view
    reaches the caller of the outer one unchanged. *)
Module nesting.
Import subdirfs.

Section Nesting.
Context {W E F I : Type} `{billy.File F} `{billy.FileInfo I}.


(** A [*subdirFs] has the methods [Symlink] and [Readlink] whatever lies
    under it, so a view used as a filesystem passes the type assertion
    [fs.(billy.Symlinker)]. *)
Definition asSymlinker (s : subdirFs W E F I) : billy.Symlinker W (error E) :=
  {| billy.Symlink := Symlink s; billy.Readlink := Readlink s |}.


End Nesting.
End nesting.

(** ** More stores for the in-memory backend *)
Module fixtures.

(** A store with a directory two elements deep: [srv/www] holds [index]
    and [logs]; and a directory [etc] whose one child has a name that
    begins like its own. *)
Definition nested : testfs.world :=
  {| testfs.nodes := [ testfs.node (txt "srv") 0 true;
                       testfs.node (txt "srv/www") 0 true;
                       testfs.node (txt "srv/www/index") 9 false;
                       testfs.node (txt "srv/www/logs") 0 true;
                       testfs.node (txt "etc") 0 true;
                       testfs.node (txt "etc/etc.conf") 4 false ];
     testfs.links := [];
     testfs.temps := 0 |}.

(** The view of [srv], and the store with a relative link in it. *)
Definition srv : subdirfs.subdirFs testfs.world testfs.err testfs.handle
                                   testfs.info :=
  testfs.view true (txt "srv").

Definition etc : subdirfs.subdirFs testfs.world testfs.err testfs.handle
                                   testfs.info :=
  testfs.view true (txt "etc").

Definition nestedLinked (target : str) : testfs.world :=
  {| testfs.nodes := testfs.nodes nested;
     testfs.links := [(txt "srv/link", target)];
     testfs.temps := 0 |}.

(** The store after a temporary file was made in [srv/www], and the handle
    the view of [srv] gives for it. *)
Definition uploadWorld : testfs.world :=
  snd (testfs.TempFile (txt "srv/www") (txt "up") nested).

Definition uploadFile : testfs.handle :=
  {| testfs.hName := txt "srv/www/up0" |}.

Definition uploadHandle
  : subdirfs.file testfs.world testfs.err testfs.handle testfs.info :=
  subdirfs.newFile srv (Some uploadFile) (txt "www/up0").


End fixtures.

(** * Properties *)

Lemma str_eqb_eq (a b : str) : str_eqb a b = true <-> a = b.
Proof.
  unfold str_eqb. destruct (list_eq_dec ascii_dec a b); split; congruence.
Qed.

Lemma str_eqb_neq (a b : str) : str_eqb a b = false <-> a <> b.
Proof.
  unfold str_eqb. destruct (list_eq_dec ascii_dec a b); split; congruence.
Qed.

Lemma str_eqb_refl (a : str) : str_eqb a a = true.
Proof. now apply str_eqb_eq. Qed.

(** ** The path functions on the tables of the Go test suite *)
Module filepath_tables.
Import filepath.

Example Clean_table :
  map Clean [txt ""; txt "abc"; txt "abc/def"; txt "a/b/c"; txt ".";
             txt ".."; txt "../.."; txt "../../abc"; txt "/abc"; txt "/";
             txt "abc/"; txt "abc/def/"; txt "a/b/c/"; txt "./"; txt "../";
             txt "../../"; txt "/abc/"; txt "abc//def//ghi"; txt "//abc";
             txt "///abc"; txt "//abc//"; txt "abc//"; txt "abc/./def";
             txt "/./abc/def"; txt "abc/."; txt "abc/def/ghi/../jkl";
             txt "abc/def/../ghi/../jkl"; txt "abc/def/..";
             txt "abc/def/../.."; txt "/abc/def/../..";
             txt "abc/def/../../.."; txt "/abc/def/../../..";
             txt "abc/def/../../../ghi/jkl/../../../mno";
             txt "/../abc"; txt "abc/./../def"; txt "abc//./../def";
             txt "abc/../../././../def"]
  = [txt "."; txt "abc"; txt "abc/def"; txt "a/b/c"; txt ".";
     txt ".."; txt "../.."; txt "../../abc"; txt "/abc"; txt "/";
     txt "abc"; txt "abc/def"; txt "a/b/c"; txt "."; txt "..";
     txt "../.."; txt "/abc"; txt "abc/def/ghi"; txt "/abc";
     txt "/abc"; txt "/abc"; txt "abc"; txt "abc/def";
     txt "/abc/def"; txt "abc"; txt "abc/def/jkl";
     txt "abc/jkl"; txt "abc";
     txt "."; txt "/";
     txt ".."; txt "/";
     txt "../../mno";
     txt "/abc"; txt "def"; txt "def";
     txt "../../def"].
Proof. vm_compute. reflexivity. Qed.

Example Join_table :
  map Join [[]; [txt ""]; [txt "/"]; [txt "a"]; [txt "a"; txt "b"];
            [txt "a"; txt ""]; [txt ""; txt "b"]; [txt "/"; txt "a"];
            [txt "/"; txt "a/b"]; [txt "/"; txt ""]; [txt "//"; txt "a"];
            [txt "/a"; txt "b"]; [txt "a/"; txt "b"]; [txt "a/"; txt ""];
            [txt ""; txt ""]; [txt "/"; txt "a"; txt "b"]]
  = [txt ""; txt ""; txt "/"; txt "a"; txt "a/b";
     txt "a"; txt "b"; txt "/a";
     txt "/a/b"; txt "/"; txt "/a";
     txt "/a/b"; txt "a/b"; txt "a";
     txt ""; txt "/a/b"].
Proof. vm_compute. reflexivity. Qed.

Example Base_table :
  map Base [txt ""; txt "."; txt "/."; txt "/"; txt "////"; txt "x/";
            txt "abc"; txt "abc/def"; txt "a/b/.x"; txt "a/b/c.";
            txt "a/b/c.x"]
  = [txt "."; txt "."; txt "."; txt "/"; txt "/"; txt "x";
     txt "abc"; txt "def"; txt ".x"; txt "c.";
     txt "c.x"].
Proof. vm_compute. reflexivity. Qed.

Example Rel_table :
  map (fun bt => Rel (fst bt) (snd bt))
      [(txt "a/b", txt "a/b"); (txt "a/b/.", txt "a/b"); (txt "a/b", txt "a/b/.");
       (txt "./a/b", txt "a/b"); (txt "ab/cd", txt "ab/cde"); (txt "ab/cd", txt "ab/c");
       (txt "a/b", txt "a/b/c/d"); (txt "a/b", txt "a/b/../c"); (txt "a/b/../c", txt "a/b");
       (txt "a/b/c", txt "a/c/d"); (txt "a/b", txt "c/d"); (txt "a/b/c/d", txt "a/b");
       (txt "a/b/c/d", txt "a/b/"); (txt "../../a/b", txt "../../a/b/c/d");
       (txt "/a/b", txt "/a/b"); (txt "/a/b/.", txt "/a/b"); (txt "/ab/cd", txt "/ab/cde");
       (txt "/a/b", txt "/a/b/c/d"); (txt "/a/b", txt "/a/b/../c"); (txt "/a/b/c", txt "/a/c/d");
       (txt "/a/b", txt "/c/d"); (txt "/a/b/c/d", txt "/a/b"); (txt "/../../a/b", txt "/../../a/b/c/d");
       (txt ".", txt "a/b"); (txt ".", txt ".."); (txt "/", txt "/a/b"); (txt "/a", txt "/")]
  = [(txt ".", None); (txt ".", None); (txt ".", None);
     (txt ".", None); (txt "../cde", None); (txt "../c", None);
     (txt "c/d", None); (txt "../c", None); (txt "../b", None);
     (txt "../../c/d", None); (txt "../../c/d", None); (txt "../..", None);
     (txt "../..", None); (txt "c/d", None);
     (txt ".", None); (txt ".", None); (txt "../cde", None);
     (txt "c/d", None); (txt "../c", None); (txt "../../c/d", None);
     (txt "../../c/d", None); (txt "../..", None); (txt "c/d", None);
     (txt "a/b", None); (txt "..", None); (txt "a/b", None); (txt "..", None)].
Proof. vm_compute. reflexivity. Qed.

(** Rows where [Rel] fails. *)
Example Rel_errors :
  map (fun bt => snd (Rel (fst bt) (snd bt)))
      [(txt "..", txt "."); (txt "..", txt "a");
       (txt "a", txt "/a"); (txt "/a", txt "a")]
  = [Some (CantMakeRelative (txt ".") (txt ".."));
     Some (CantMakeRelative (txt "a") (txt ".."));
     Some (CantMakeRelative (txt "/a") (txt "a"));
     Some (CantMakeRelative (txt "a") (txt "/a"))].
Proof. vm_compute. reflexivity. Qed.

End filepath_tables.

(** ** Path algebra *)
Module filepath_facts.
Import filepath.

Lemma sep_is_sep : IsPathSeparator Separator = true.
Proof. reflexivity. Qed.

Lemma elements_cons_inv (p : str) : exists e es, elements p = e :: es.
Proof.
  destruct p as [|c p]; simpl.
  - eauto.
  - destruct (IsPathSeparator c); [eauto|].
    destruct (elements p); eauto.
Qed.

Lemma elements_app_sep (a b : str) :
  elements (a ++ Separator :: b) = elements a ++ elements b.
Proof.
  induction a as [|c a IH]; simpl.
  - reflexivity.
  - destruct (IsPathSeparator c).
    + now rewrite IH.
    + rewrite IH. destruct (elements_cons_inv a) as (e & es & ->).
      reflexivity.
Qed.

Lemma elements_sepFree (e : str) : sepFree e -> elements e = [e].
Proof.
  induction 1 as [|c e Hc _ IH]; simpl.
  - reflexivity.
  - now rewrite Hc, IH.
Qed.

Lemma elements_all_sepFree (p : str) : Forall sepFree (elements p).
Proof.
  induction p as [|c p IH]; simpl.
  - repeat constructor.
  - destruct (IsPathSeparator c) eqn:Hc.
    + constructor; [constructor | exact IH].
    + destruct (elements p) as [|e es].
      * repeat constructor. exact Hc.
      * inversion IH; subst. constructor; [|assumption].
        constructor; assumption.
Qed.

(** The elements of a run of separators are all empty. *)
Lemma elements_separators (t : str) :
  Forall (fun c => IsPathSeparator c = true) t ->
  Forall (fun e => e = []) (elements t).
Proof.
  induction 1 as [|c t Hc _ IH]; simpl.
  - repeat constructor.
  - rewrite Hc. constructor; [reflexivity | exact IH].
Qed.

Local Abbreviation sep := [Separator].

Lemma Join_cons (e : str) (es : list str) :
  es <> [] -> strings.Join (e :: es) sep = e ++ sep ++ strings.Join es sep.
Proof. destruct es; [congruence | reflexivity]. Qed.

Lemma Join_snoc (xs : list str) (e : str) :
  strings.Join (xs ++ [e]) sep
  = match xs with
    | [] => e
    | _ :: _ => strings.Join xs sep ++ Separator :: e
    end.
Proof.
  induction xs as [|x xs IH].
  - reflexivity.
  - change ((x :: xs) ++ [e]) with (x :: (xs ++ [e])).
    rewrite Join_cons by (destruct xs; discriminate).
    rewrite IH. destruct xs as [|y ys].
    + reflexivity.
    + rewrite (Join_cons x) by discriminate.
      simpl. rewrite <- !app_assoc. reflexivity.
Qed.

Lemma Join_app (xs ys : list str) :
  xs <> [] -> ys <> [] ->
  strings.Join (xs ++ ys) sep
  = strings.Join xs sep ++ Separator :: strings.Join ys sep.
Proof.
  intros Hx Hy. induction xs as [|x xs IH]; [congruence|].
  change ((x :: xs) ++ ys) with (x :: (xs ++ ys)).
  rewrite Join_cons by (destruct xs; [assumption | discriminate]).
  destruct xs as [|x' xs].
  - reflexivity.
  - rewrite IH by discriminate. rewrite (Join_cons x) by discriminate.
    simpl. rewrite <- !app_assoc. reflexivity.
Qed.

Lemma elements_Join (xs : list str) :
  xs <> [] -> Forall sepFree xs -> elements (strings.Join xs sep) = xs.
Proof.
  intros Hne Hall. induction Hall as [|x xs Hx Hall IH]; [congruence|].
  destruct xs as [|y ys].
  - simpl. now apply elements_sepFree.
  - rewrite Join_cons by discriminate.
    change (elements (x ++ Separator :: strings.Join (y :: ys) sep)
            = x :: y :: ys).
    rewrite elements_app_sep, IH by discriminate.
    rewrite elements_sepFree by assumption. reflexivity.
Qed.

Lemma Join_nonempty (xs : list str) :
  xs <> [] -> Forall (fun e => e <> []) xs -> strings.Join xs sep <> [].
Proof.
  intros Hne Hall. destruct xs as [|x xs]; [congruence|].
  inversion Hall as [|? ? Hx _]; subst. destruct xs.
  - exact Hx.
  - rewrite Join_cons by discriminate. destruct x; discriminate.
Qed.

(** *** [Base] *)

Lemma takeWhile_dropWhile {A} (f : A -> bool) (l : list A) :
  takeWhile f l ++ dropWhile f l = l.
Proof.
  induction l as [|x l IH]; simpl; [reflexivity|].
  destruct (f x); simpl; [now rewrite IH | reflexivity].
Qed.

Lemma takeWhile_Forall {A} (f : A -> bool) (l : list A) :
  Forall (fun x => f x = true) (takeWhile f l).
Proof.
  induction l as [|x l IH]; simpl; [constructor|].
  destruct (f x) eqn:Hx; constructor; assumption.
Qed.

Lemma dropWhile_head {A} (f : A -> bool) (l : list A) :
  dropWhile f l = []
  \/ exists x l', dropWhile f l = x :: l' /\ f x = false.
Proof.
  induction l as [|x l IH]; simpl; [now left|].
  destruct (f x) eqn:Hx; [exact IH | right; eauto].
Qed.

Lemma takeWhile_app_stop {A} (f : A -> bool) (l r : list A) :
  Forall (fun x => f x = true) l ->
  (r = [] \/ exists x r', r = x :: r' /\ f x = false) ->
  takeWhile f (l ++ r) = l.
Proof.
  intros Hl Hr. induction Hl as [|x l Hx _ IH]; simpl.
  - destruct Hr as [->|(x & r' & -> & Hx)]; simpl; [reflexivity|].
    now rewrite Hx.
  - now rewrite Hx, IH.
Qed.

Lemma dropWhile_stop {A} (f : A -> bool) (x : A) (l : list A) :
  f x = false -> dropWhile f (x :: l) = x :: l.
Proof. intros Hx. simpl. now rewrite Hx. Qed.

Lemma IsPathSeparator_eq (c : ascii) :
  IsPathSeparator c = true -> c = Separator.
Proof. apply Ascii.eqb_eq. Qed.

(** A path whose [Base] is not the separator is made of a part that is
    empty or ends with a separator, then the base, then separators. *)
Lemma Base_decompose (p : str) :
  p <> [] -> Base p <> sep ->
  exists q t,
    p = q ++ Base p ++ t
    /\ Forall (fun c => IsPathSeparator c = true) t
    /\ Base p <> [] /\ sepFree (Base p)
    /\ (q = [] \/ exists q', q = q' ++ sep).
Proof.
  intros Hp Hb. destruct p as [|c p]; [congruence|]. clear Hp.
  unfold Base in *.
  set (rp := rev (c :: p)) in *.
  set (rest := dropWhile IsPathSeparator rp) in *.
  set (notsep := fun c0 => negb (IsPathSeparator c0)) in *.
  pose proof (takeWhile_dropWhile IsPathSeparator rp) as H1.
  pose proof (takeWhile_dropWhile notsep rest) as H2.
  fold rest in H1.
  destruct (rev (takeWhile notsep rest)) as [|b bs] eqn:Hlast;
    [congruence|].
  exists (rev (dropWhile notsep rest)), (rev (takeWhile IsPathSeparator rp)).
  repeat split.
  - rewrite <- Hlast, <- !rev_app_distr, <- app_assoc, H2, H1.
    unfold rp. now rewrite rev_involutive.
  - apply Forall_rev, takeWhile_Forall.
  - discriminate.
  - rewrite <- Hlast. apply Forall_rev.
    eapply Forall_impl; [|apply (takeWhile_Forall notsep)].
    intros a Ha. unfold notsep in Ha. now apply negb_true_iff.
  - destruct (dropWhile_head notsep rest) as [->|(x & l' & -> & Hx)].
    + now left.
    + right. exists (rev l'). simpl.
      unfold notsep in Hx. apply negb_false_iff, IsPathSeparator_eq in Hx.
      now subst.
Qed.

Lemma elements_name_run (e t : str) :
  sepFree e -> Forall (fun c => IsPathSeparator c = true) t ->
  exists Z, elements (e ++ t) = e :: Z /\ Forall (fun x => x = []) Z.
Proof.
  intros He Ht. destruct Ht as [|c t Hc Ht].
  - exists []. rewrite app_nil_r, elements_sepFree by assumption. now split.
  - apply IsPathSeparator_eq in Hc. subst c.
    exists (elements t).
    rewrite elements_app_sep, elements_sepFree by assumption.
    split; [reflexivity | now apply elements_separators].
Qed.

(** The elements of such a path: some elements, the base, empty ones. *)
Lemma elements_Base (p : str) :
  p <> [] -> Base p <> sep ->
  exists X Z,
    elements p = X ++ Base p :: Z /\ Forall (fun x => x = []) Z.
Proof.
  intros Hp Hb.
  destruct (Base_decompose Hp Hb) as (q & t & Heq & Ht & _ & Hfree & Hq).
  destruct (elements_name_run Hfree Ht) as (Z & HZ & Hempty).
  destruct Hq as [->|(q' & ->)].
  - exists [], Z. rewrite Heq at 1. simpl. now split.
  - exists (elements q'), Z. rewrite Heq at 1.
    rewrite <- app_assoc. simpl. rewrite elements_app_sep, HZ. now split.
Qed.

Lemma Base_suffix (pre e : str) :
  e <> [] -> sepFree e ->
  (pre = [] \/ exists pre', pre = pre' ++ sep) ->
  Base (pre ++ e) = e.
Proof.
  intros He Hfree Hpre. unfold Base.
  destruct (pre ++ e) as [|c l] eqn:Hpe.
  - destruct pre, e; try discriminate; congruence.
  - rewrite <- Hpe. clear c l Hpe. rewrite rev_app_distr.
    assert (Hrev : Forall (fun c => negb (IsPathSeparator c) = true) (rev e)).
    { apply Forall_rev. eapply Forall_impl; [|exact Hfree].
      intros a Ha. simpl in Ha. now rewrite Ha. }
    destruct (rev e) as [|x xs] eqn:Hx.
    { apply (f_equal (@rev _)) in Hx. rewrite rev_involutive in Hx.
      simpl in Hx. congruence. }
    assert (Hxsep : IsPathSeparator x = false).
    { inversion Hrev; subst. now apply negb_true_iff. }
    change ((x :: xs) ++ rev pre) with (x :: (xs ++ rev pre)).
    rewrite dropWhile_stop by assumption.
    change (x :: xs ++ rev pre) with ((x :: xs) ++ rev pre).
    rewrite takeWhile_app_stop.
    + rewrite <- Hx, rev_involutive. destruct e; [congruence | reflexivity].
    + exact Hrev.
    + destruct Hpre as [->|(pre' & ->)]; [now left|].
      right. rewrite rev_app_distr. simpl. eauto.
Qed.

(** *** The loop of [Clean] *)

Lemma cleanStep_empty (r : bool) (out : list str) : cleanStep r out [] = out.
Proof. reflexivity. Qed.

Lemma cleanStep_dot (r : bool) (out : list str) : cleanStep r out dot = out.
Proof. reflexivity. Qed.

Lemma cleanStep_name (r : bool) (out : list str) (e : str) :
  isName e -> cleanStep r out e = e :: out.
Proof.
  intros (H1 & H2 & H3 & _). unfold cleanStep.
  apply str_eqb_neq in H1, H2, H3. now rewrite H1, H2, H3.
Qed.

Lemma cleanStep_dotdot (r : bool) (out : list str) :
  cleanStep r out dotdot
  = match out with
    | top :: rest =>
        if str_eqb top dotdot
        then (if r then out else dotdot :: out)
        else rest
    | [] => if r then [] else [dotdot]
    end.
Proof. reflexivity. Qed.

(** An element without separator is empty, [.], [..] or a name. *)
Lemma element_cases (e : str) :
  sepFree e -> e = [] \/ e = dot \/ e = dotdot \/ isName e.
Proof.
  intros Hfree.
  destruct (str_eqb e []) eqn:H1; [apply str_eqb_eq in H1; auto|].
  destruct (str_eqb e dot) eqn:H2; [apply str_eqb_eq in H2; auto|].
  destruct (str_eqb e dotdot) eqn:H3; [apply str_eqb_eq in H3; auto|].
  apply str_eqb_neq in H1, H2, H3. right. right. right.
  repeat split; assumption.
Qed.

Lemma cleanElements_app (r : bool) (xs ys : list str) :
  cleanElements r (xs ++ ys)
  = fold_left (cleanStep r) ys (cleanElements r xs).
Proof. apply fold_left_app. Qed.

Lemma fold_empties (r : bool) (Z : list str) (out : list str) :
  Forall (fun x => x = []) Z -> fold_left (cleanStep r) Z out = out.
Proof.
  intros HZ. revert out. induction HZ as [|z Z -> _ IH]; intros out; simpl.
  - reflexivity.
  - apply IH.
Qed.

(** When the last element that is not empty is a name, the cleaned path
    ends with it. *)
Lemma Clean_ends (path : str) (X Z : list str) (e : str) :
  path <> [] ->
  elements path = X ++ e :: Z ->
  isName e -> Forall (fun x => x = []) Z ->
  exists pre,
    Clean path = pre ++ e /\ (pre = [] \/ exists pre', pre = pre' ++ sep).
Proof.
  intros Hp Hel He HZ. destruct path as [|c path]; [congruence|].
  unfold Clean. rewrite Hel.
  set (r := IsPathSeparator c).
  assert (Hout : cleanElements r (X ++ e :: Z) = e :: cleanElements r X).
  { rewrite cleanElements_app. simpl.
    rewrite cleanStep_name by assumption. now apply fold_empties. }
  rewrite Hout. simpl rev. rewrite Join_snoc.
  destruct He as (Hne & _).
  destruct (rev (cleanElements r X)) as [|y ys] eqn:Hrev.
  - destruct r.
    + exists sep. split; [reflexivity|]. right. now exists [].
    + exists []. split; [|now left]. destruct e; [congruence | reflexivity].
  - set (J := strings.Join (y :: ys) sep).
    destruct r.
    + exists (Separator :: J ++ sep). split.
      * simpl. rewrite <- app_assoc. reflexivity.
      * right. now exists (Separator :: J).
    + exists (J ++ sep). split.
      * rewrite <- app_assoc. simpl.
        destruct (J ++ Separator :: e) eqn:HJ; [|reflexivity].
        destruct J; discriminate.
      * right. now exists J.
Qed.

(** The base of a path joined below any base is the base of the path, when
    that is a name. *)
Lemma Base_Join (base p : str) :
  Base p <> dot -> Base p <> dotdot -> Base p <> sep ->
  Base (filepath.Join [base; p]) = Base p.
Proof.
  intros Hdot Hdd Hsep.
  assert (Hp : p <> []) by (intros ->; now apply Hdot).
  destruct (Base_decompose Hp Hsep) as (_ & _ & _ & _ & Hne & Hfree & _).
  destruct (elements_Base Hp Hsep) as (X & Z & Hel & HZ).
  assert (Hname : isName (Base p)) by (repeat split; assumption).
  assert (Hgoal : forall path X', path <> [] ->
            elements path = X' ++ Base p :: Z -> Base (Clean path) = Base p).
  { intros path X' Hpath Hel'.
    destruct (@Clean_ends path X' Z (Base p) Hpath Hel' Hname HZ)
      as (pre & -> & Hpre).
    now apply Base_suffix. }
  destruct base as [|b base].
  - destruct p as [|c p]; [congruence|]. simpl filepath.Join.
    now apply (Hgoal (c :: p) X).
  - change (filepath.Join [b :: base; p])
      with (Clean ((b :: base) ++ Separator :: p)).
    apply (Hgoal _ (elements (b :: base) ++ X)); [discriminate|].
    rewrite elements_app_sep, Hel, <- app_assoc. reflexivity.
Qed.

(** *** Cleaning on a stack *)

(** In a path that is not rooted a [..] once written is never removed. *)
Lemma cleanStep_keeps_dotdot (out : list str) (x : str) :
  In dotdot out -> In dotdot (cleanStep false out x).
Proof.
  intros Hin. unfold cleanStep.
  destruct (str_eqb x []); [assumption|].
  destruct (str_eqb x dot); [assumption|].
  destruct (str_eqb x dotdot); [|now right].
  destruct out as [|top rest]; [contradiction|].
  destruct (str_eqb top dotdot) eqn:Htop; [now right|].
  apply str_eqb_neq in Htop. destruct Hin as [Hin|Hin]; congruence.
Qed.

(** A path that never climbs above its start is cleaned the same way on
    top of any stack, rooted or not. *)
Lemma clean_on_stack (es : list str) (r : bool) (S : list str) :
  ~ In dotdot (cleanElements false es) ->
  fold_left (cleanStep r) es S = cleanElements false es ++ S.
Proof.
  unfold cleanElements.
  induction es as [|x es IH] using rev_ind; intros Hno.
  - reflexivity.
  - rewrite !fold_left_app in *. simpl in *.
    set (T := fold_left (cleanStep false) es []) in *.
    assert (HT : ~ In dotdot T).
    { intros Hin. apply Hno. now apply cleanStep_keeps_dotdot. }
    rewrite IH by assumption.
    unfold cleanStep in *.
    destruct (str_eqb x []); [reflexivity|].
    destruct (str_eqb x dot); [reflexivity|].
    destruct (str_eqb x dotdot); [|reflexivity].
    destruct T as [|top rest].
    + exfalso. apply Hno. now left.
    + simpl. destruct (str_eqb top dotdot) eqn:Htop; [|reflexivity].
      apply str_eqb_eq in Htop. exfalso. apply HT. now left.
Qed.

Lemma isName_not_dotdot (e : str) : isName e -> str_eqb e dotdot = false.
Proof. intros (_ & _ & H & _). now apply str_eqb_neq. Qed.

(** The stack of a rooted path holds names only. *)
Lemma rooted_stack_names (es : list str) (out : list str) :
  Forall sepFree es -> Forall isName out ->
  Forall isName (fold_left (cleanStep true) es out).
Proof.
  intros Hes. revert out. induction Hes as [|x es Hx _ IH]; intros out Hout.
  - exact Hout.
  - simpl. apply IH.
    destruct (element_cases Hx) as [->|[->|[->|Hname]]].
    + exact Hout.
    + exact Hout.
    + rewrite cleanStep_dotdot. destruct Hout as [|top rest Htop Hrest].
      * constructor.
      * now rewrite (isName_not_dotdot Htop).
    + rewrite cleanStep_name by assumption. now constructor.
Qed.

Lemma fold_names (r : bool) (L S : list str) :
  Forall isName L -> fold_left (cleanStep r) L S = rev L ++ S.
Proof.
  intros HL. revert S. induction HL as [|x L Hx _ IH]; intros S.
  - reflexivity.
  - simpl. rewrite cleanStep_name by assumption.
    rewrite IH, <- app_assoc. reflexivity.
Qed.

Lemma fold_dotdots_rooted (k : nat) :
  fold_left (cleanStep true) (repeat dotdot k) [] = [].
Proof. induction k; [reflexivity | exact IHk]. Qed.

(** The stack of a path that is not rooted is the stack of the rooted one
    on top of some [..] elements. *)
Lemma relative_stack (es : list str) :
  Forall sepFree es ->
  exists k,
    cleanElements false es = cleanElements true es ++ repeat dotdot k.
Proof.
  unfold cleanElements.
  induction es as [|x es IH] using rev_ind; intros Hes.
  - now exists 0.
  - apply Forall_app in Hes as (Hes & Hx). inversion Hx as [|? ? Hx' _]; subst.
    destruct (IH Hes) as (k & Hk).
    pose proof (rooted_stack_names (out := []) Hes (Forall_nil _)) as Hnames.
    rewrite !fold_left_app. simpl. rewrite Hk.
    set (R := fold_left (cleanStep true) es []) in *.
    destruct (element_cases Hx') as [->|[->|[->|Hname]]].
    + now exists k.
    + now exists k.
    + rewrite !cleanStep_dotdot.
      destruct Hnames as [|top rest Htop Hrest].
      * exists (S k). destruct k; reflexivity.
      * exists k. simpl. now rewrite (isName_not_dotdot Htop).
    + exists k. now rewrite !cleanStep_name by assumption.
Qed.

Lemma cleanElements_skip_empty (r : bool) (es : list str) :
  cleanElements r ([] :: es) = cleanElements r es.
Proof. reflexivity. Qed.

Lemma elements_rooted (x : str) : elements (Separator :: x) = [] :: elements x.
Proof. reflexivity. Qed.

Lemma Clean_rooted (x : str) :
  Clean (Separator :: x)
  = Separator :: strings.Join (rev (cleanElements true (elements x))) sep.
Proof. reflexivity. Qed.

Lemma isName_sepFree (L : list str) : Forall isName L -> Forall sepFree L.
Proof. apply Forall_impl. now intros e (_ & _ & _ & H). Qed.

Lemma isName_nonempty (L : list str) :
  Forall isName L -> Forall (fun e => e <> []) L.
Proof. apply Forall_impl. now intros e (H & _). Qed.

(** Cleaning a cleaned path again as a rooted path gives the stack of the
    path itself, cleaned as a rooted path. *)
Lemma reclean (path : str) :
  path <> [] ->
  cleanElements true (elements (Clean path))
  = cleanElements true (elements path).
Proof.
  intros Hp. destruct path as [|c path]; [congruence|]. clear Hp.
  pose proof (elements_all_sepFree (c :: path)) as Hfree.
  pose proof (rooted_stack_names (out := []) Hfree (Forall_nil _)) as Hnames.
  fold (cleanElements true (elements (c :: path))) in Hnames.
  unfold Clean. destruct (IsPathSeparator c) eqn:Hc.
  - set (O := cleanElements true (elements (c :: path))) in *.
    rewrite elements_rooted, cleanElements_skip_empty.
    destruct (rev O) as [|y ys] eqn:Hrev.
    + apply (f_equal (@rev _)) in Hrev. rewrite rev_involutive in Hrev.
      rewrite Hrev. reflexivity.
    + rewrite <- Hrev. rewrite elements_Join.
      * unfold cleanElements. rewrite fold_names, rev_involutive, app_nil_r.
        -- reflexivity.
        -- now apply Forall_rev.
      * rewrite Hrev. discriminate.
      * apply Forall_rev. now apply isName_sepFree.
  - destruct (relative_stack Hfree) as (k & Hk).
    set (R := cleanElements true (elements (c :: path))) in *.
    rewrite Hk. rewrite rev_app_distr, rev_repeat.
    set (L := repeat dotdot k ++ rev R).
    assert (HL : Forall sepFree L /\ Forall (fun e => e <> []) L).
    { unfold L. split; apply Forall_app; split.
      - apply Forall_forall. intros e He. apply repeat_spec in He. subst.
        repeat constructor.
      - apply Forall_rev. now apply isName_sepFree.
      - apply Forall_forall. intros e He. apply repeat_spec in He. subst.
        discriminate.
      - apply Forall_rev. now apply isName_nonempty. }
    destruct HL as (HL1 & HL2).
    assert (Hfold : cleanElements true L = R).
    { unfold cleanElements, L. rewrite fold_left_app, fold_dotdots_rooted.
      rewrite fold_names, rev_involutive, app_nil_r by now apply Forall_rev.
      reflexivity. }
    destruct L as [|l0 L'] eqn:HLeq.
    + simpl. rewrite <- Hfold. reflexivity.
    + rewrite <- HLeq in *.
      assert (HJ : strings.Join L sep <> []).
      { apply Join_nonempty; [rewrite HLeq; discriminate | assumption]. }
      destruct (strings.Join L sep) eqn:HJeq; [congruence|].
      rewrite <- HJeq, elements_Join; [exact Hfold | | assumption].
      rewrite HLeq. discriminate.
Qed.

(** *** [Rel] below a base *)

Lemma relLoop_prefix (Bs Ts : list str) :
  Forall (fun e => e <> []) Bs -> relLoop Bs (Bs ++ Ts) = ([], [], Ts).
Proof.
  induction 1 as [|b Bs Hb _ IH]; simpl.
  - destruct Ts; reflexivity.
  - destruct b as [|c b]; [congruence|].
    rewrite str_eqb_refl. exact IH.
Qed.

Lemma IsAbs_rooted (x : str) : IsAbs (Separator :: x) = true.
Proof. reflexivity. Qed.

Lemma app_neq_self {A} (l r : list A) : r <> [] -> l ++ r <> l.
Proof.
  intros Hr Heq. apply Hr.
  apply (app_inv_head l). now rewrite app_nil_r.
Qed.

(** The relative path from [/] + the cleaned names [Bs] to [/] + the names
    [Bs] followed by [Ts] is the path of [Ts]. *)
Lemma Rel_below (basepath targpath : str) (Bs Ts : list str) :
  Forall isName Bs -> Forall isName Ts -> Ts <> [] ->
  Clean basepath = Separator :: strings.Join Bs sep ->
  Clean targpath = Separator :: strings.Join (Bs ++ Ts) sep ->
  Rel basepath targpath = (strings.Join Ts sep, None).
Proof.
  intros HBs HTs Hne Hbase Htarg. unfold Rel. rewrite Hbase, Htarg.
  assert (HTfree : Forall sepFree Ts) by now apply isName_sepFree.
  assert (HBfree : Forall sepFree Bs) by now apply isName_sepFree.
  assert (HJT : strings.Join Ts sep <> [])
    by (apply Join_nonempty; [assumption | now apply isName_nonempty]).
  assert (Hdiff : str_eqb (Separator :: strings.Join (Bs ++ Ts) sep)
                          (Separator :: strings.Join Bs sep) = false).
  { apply str_eqb_neq. intros Heq. injection Heq as Heq.
    destruct Bs as [|b Bs'].
    - simpl in Heq. congruence.
    - rewrite Join_app in Heq by (assumption || discriminate).
      revert Heq. apply app_neq_self. discriminate. }
  rewrite Hdiff.
  assert (Hnd : str_eqb (Separator :: strings.Join Bs sep) dot = false)
    by (apply str_eqb_neq; discriminate).
  rewrite Hnd, !IsAbs_rooted. simpl negb. cbv iota.
  rewrite !elements_rooted.
  destruct Bs as [|b Bs'].
  - rewrite app_nil_l. rewrite (elements_Join Hne HTfree).
    destruct Ts as [|t Ts']; [congruence|].
    simpl relLoop. reflexivity.
  - rewrite (elements_Join (xs := b :: Bs')) by (assumption || discriminate).
    rewrite elements_Join;
      [| discriminate | apply Forall_app; now split].
    change (relLoop ([] :: b :: Bs') ([] :: (b :: Bs') ++ Ts))
      with (relLoop (b :: Bs') ((b :: Bs') ++ Ts)).
    rewrite relLoop_prefix by now apply isName_nonempty.
    reflexivity.
Qed.

Import scope.

(** The stored target of an absolute link that stays inside the view, read
    back relative to [/] + base: the cleaned target without its leading
    separator, or [.] when the target is the root of the view. *)
Lemma Rel_Join_inside (base t : str) :
  IsAbs t = true -> staysInside t = true ->
  Rel (Separator :: base) (Separator :: filepath.Join [base; t])
  = (if str_eqb (Clean t) sep then dot else tl (Clean t), None).
Proof.
  intros Habs Hin.
  destruct t as [|c t]; [discriminate|].
  assert (c = Separator) as ->.
  { unfold IsAbs in Habs. simpl in Habs.
    apply andb_true_iff in Habs as (Hc & _). now apply Ascii.eqb_eq. }
  set (t0 := (Separator :: t) : str) in *.
  set (T := cleanElements false (elements t0)).
  assert (HnoT : ~ In dotdot T).
  { unfold staysInside in Hin. rewrite forallb_forall in Hin.
    intros Hd. apply Hin in Hd. now rewrite str_eqb_refl in Hd. }
  assert (HT : cleanElements true (elements t0) = T).
  { unfold cleanElements at 1.
    rewrite (clean_on_stack (elements t0) true [] HnoT).
    apply app_nil_r. }
  assert (HTnames : Forall isName T).
  { rewrite <- HT. apply rooted_stack_names; [|constructor].
    apply elements_all_sepFree. }
  set (B := cleanElements true (elements base)).
  assert (HBnames : Forall isName B).
  { apply rooted_stack_names; [|constructor]. apply elements_all_sepFree. }
  assert (Hbase : Clean (Separator :: base)
                  = Separator :: strings.Join (rev B) sep)
    by apply Clean_rooted.
  assert (Hstack : cleanElements true (elements (filepath.Join [base; t0]))
                   = T ++ B).
  { destruct base as [|b base'].
    - change (filepath.Join [[]; t0]) with (Clean t0).
      rewrite reclean by discriminate. rewrite HT. symmetry. apply app_nil_r.
    - change (filepath.Join [b :: base'; t0])
        with (Clean ((b :: base') ++ Separator :: t0)).
      rewrite reclean by discriminate.
      rewrite elements_app_sep. unfold cleanElements.
      rewrite fold_left_app.
      now rewrite (clean_on_stack (elements t0) true _ HnoT). }
  assert (Htarg : Clean (Separator :: filepath.Join [base; t0])
                  = Separator :: strings.Join (rev B ++ rev T) sep).
  { now rewrite Clean_rooted, Hstack, rev_app_distr. }
  assert (Ht : Clean t0 = Separator :: strings.Join (rev T) sep).
  { unfold t0. rewrite Clean_rooted. fold t0. rewrite <- HT. reflexivity. }
  rewrite Ht.
  destruct T as [|x T'] eqn:HTeq.
  - unfold Rel. rewrite Hbase, Htarg. simpl rev.
    rewrite app_nil_r, str_eqb_refl. reflexivity.
  - rewrite <- HTeq in *.
    assert (Hrev : rev T <> []).
    { rewrite HTeq. simpl. destruct (rev T'); discriminate. }
    assert (HJ : strings.Join (rev T) sep <> []).
    { apply Join_nonempty; [assumption|].
      apply Forall_rev. now apply isName_nonempty. }
    replace (str_eqb (Separator :: strings.Join (rev T) sep) sep)
      with false.
    + simpl tl.
      apply Rel_below with (Bs := rev B);
        try assumption; now apply Forall_rev.
    + symmetry. apply str_eqb_neq. intros Heq. injection Heq as Heq.
      congruence.
Qed.

End filepath_facts.

(** ** The view over an arbitrary backend *)
Module subdir_props.
Import subdirfs calls.

Section Generic.
Context {W E F I : Type} `{billy.File F} `{billy.FileInfo I}.
Implicit Types (s : subdirFs W E F I) (w : W).


(** C4: when [Readlink] succeeds on a symlink-capable backend, a relative
    target of the underlying link is returned as it is, and an absolute one
    as the separator followed by its path relative to separator + base. *)
Theorem Readlink_rerooting s sl (name r : str) w w' :
  billy.asSymlinker (underlying s) = Some sl ->
  Readlink s name w = ((r, None), w') ->
  exists target,
    billy.Readlink sl (underlyingPath s name) w = ((target, None), w')
    /\ (filepath.IsAbs target = false -> r = target)
    /\ (filepath.IsAbs target = true ->
        filepath.Rel (filepath.Separator :: base s) target
        = (fst (filepath.Rel (filepath.Separator :: base s) target), None)
        /\ r = filepath.Separator
                 :: fst (filepath.Rel (filepath.Separator :: base s) target)).
Proof.
  intros Hcap Hrun. unfold Readlink in Hrun. rewrite Hcap in Hrun.
  destruct (billy.Readlink sl (underlyingPath s name) w)
    as [[target err] w1] eqn:Hu.
  destruct err as [e|]; [discriminate|].
  exists target.
  destruct (filepath.IsAbs target) eqn:Habs; simpl in Hrun.
  - destruct (filepath.Rel (filepath.Separator :: base s) target)
      as [rel [e|]] eqn:Hrel; [discriminate|].
    inversion Hrun; subst. repeat split; try reflexivity; discriminate.
  - inversion Hrun; subst. repeat split; try reflexivity; discriminate.
Qed.

(** C5: on a symlink-capable backend [Symlink] always hands on
    [underlyingPath newname]; an absolute [oldname] is handed on as the
    separator followed by [underlyingPath oldname], a relative one
    unchanged. *)
Theorem Symlink_translation s sl (oldname newname : str) w :
  billy.asSymlinker (underlying s) = Some sl ->
  let handOn (r : option E * W) := (option_map (@Underlying E) (fst r), snd r) in
  (filepath.IsAbs oldname = true ->
   Symlink s oldname newname w
   = handOn (billy.Symlink sl (filepath.Separator :: underlyingPath s oldname)
                           (underlyingPath s newname) w))
  /\ (filepath.IsAbs oldname = false ->
      Symlink s oldname newname w
      = handOn (billy.Symlink sl oldname (underlyingPath s newname) w)).
Proof.
  intros Hcap handOn. unfold Symlink, handOn. rewrite Hcap.
  split; intros ->; destruct (billy.Symlink sl _ _ w); reflexivity.
Qed.

(** C7: [Dir] gives a view whose base is [underlyingPath sub] over the
    same underlying filesystem, so any nesting of [Dir] calls is still one
    layer over the original filesystem. *)
Theorem Dir_flattens s (sub : str) (subs : list str) :
  Base (Dir s sub) = underlyingPath s sub
  /\ underlying (Dir s sub) = underlying s
  /\ underlying (fold_left Dir subs s) = underlying s.
Proof.
  repeat split.
  revert s. induction subs as [|p subs IH]; intros s; simpl.
  - reflexivity.
  - rewrite IH. reflexivity.
Qed.

(** C8: when [TempFile] succeeds, the handle it returns reports
    [Join(dir, Base(f.Filename()))], [f] being the handle the underlying
    filesystem made for the translated directory. *)
Theorem TempFile_filename s (dir prefix : str) w (h : file W E F I) w' :
  TempFile s dir prefix w = Returns ((Some h, None), w') ->
  exists f,
    billy.TempFile (underlying s) (underlyingPath s dir) prefix w
    = ((Some f, None), w')
    /\ underlyingFile h = Some f
    /\ billy.Filename h = Join s [dir; filepath.Base (billy.Filename f)].
Proof.
  unfold TempFile. intros Hrun.
  destruct (billy.TempFile (underlying s) (underlyingPath s dir) prefix w)
    as [[f err] w1].
  destruct err as [e|]; [discriminate|].
  destruct f as [f|]; [|discriminate].
  inversion Hrun; subst. exists f. repeat split.
Qed.

(** C9: when the call an operation makes on the underlying filesystem
    fails, the operation returns that very error, with a zero result, and
    the state the failed call left: nothing is retried or repaired. *)
Theorem underlying_error_passes_through s (c : call) w (e : E) w' :
  underlyingCall s c w = Some (Some e, w') ->
  exists v,
    perform s c w = Returns ((v, Some (Underlying e)), w')
    /\ isZero v = true.
Proof.
  destruct c; simpl;
    unfold Create, Open, OpenFile, TempFile, Rename, Remove, MkdirAll, Stat,
           ReadDir, Symlink, Readlink;
    try destruct (billy.asSymlinker (underlying s)) as [sl|];
    cbv zeta; intros Hu; try discriminate;
    injection Hu as Hu;
    try match goal with
        | |- context [if ?b then _ else _] => destruct b
        end;
    match type of Hu with
    | context [fst ?x] => destruct x as [[? ?] ?]
    | ?x = _ => destruct x as [? ?]
    end; simpl in Hu; inversion Hu; subst; simpl;
    eexists; split; reflexivity.
Qed.

(** C10: when [ReadDir] succeeds, its list has the length and the order of
    the underlying listing, and each position wraps the underlying entry of
    that position: every attribute but the name is read from it. *)
Theorem ReadDir_keeps_listing s (path : str) w (fis : list (fileInfo I)) w' :
  ReadDir s path w = ((fis, None), w') ->
  exists entries,
    billy.ReadDir (underlying s) (underlyingPath s path) w
    = ((entries, None), w')
    /\ List.length fis = List.length entries
    /\ forall i entry,
        nth_error entries i = Some entry ->
        exists x,
          nth_error fis i = Some x
          /\ fi x = Some entry
          /\ Name x = strings.Replace (billy.Name entry)
                                      (underlyingPath s path) [] 1
          /\ Size x = Some (billy.Size entry)
          /\ Mode x = Some (billy.Mode entry)
          /\ ModTime x = Some (billy.ModTime entry)
          /\ IsDir x = Some (billy.IsDir entry)
          /\ Sys x = Some (billy.Sys entry).
Proof.
  unfold ReadDir. intros Hrun.
  destruct (billy.ReadDir (underlying s) (underlyingPath s path) w)
    as [[entries err] w1].
  destruct err as [e|]; [discriminate|].
  inversion Hrun; subst. exists entries. split; [reflexivity|]. split.
  - apply length_map.
  - intros i entry Hi. eexists. split.
    + rewrite nth_error_map, Hi. reflexivity.
    + repeat split.
Qed.

(** C2, amended: when the last path segment of [p] is a name (so [p] is
    not empty, not made of separators only, and does not end in [.] or
    [..]) and [Stat] succeeds, the name it reports is that last segment,
    whatever the base.  The backend joins paths with [filepath.Join]. *)
Theorem Stat_name_last_segment s (p : str) w (x : fileInfo I) w' :
  (forall elem, billy.Join (underlying s) elem = filepath.Join elem) ->
  filepath.Base p <> filepath.dot ->
  filepath.Base p <> filepath.dotdot ->
  filepath.Base p <> [filepath.Separator] ->
  Stat s p w = ((Some x, None), w') ->
  Name x = filepath.Base p.
Proof.
  intros HJoin Hdot Hdd Hsep Hrun. unfold Stat in Hrun.
  destruct (billy.Stat (underlying s) (underlyingPath s p) w)
    as [[info err] w1].
  destruct err as [e|]; [discriminate|].
  inversion Hrun; subst. unfold Name. simpl.
  unfold underlyingPath, Join. rewrite HJoin.
  now apply filepath_facts.Base_Join.
Qed.

(** C6, amended: for an absolute target [t] that stays inside the view and
    whose cleaned form is not the root [/], on a backend that joins paths
    with [filepath.Join] and keeps link targets as given, [Readlink] after
    a successful [Symlink] returns the cleaned form of [t]; so it returns
    [t] itself when [t] is already clean. *)
Theorem Symlink_Readlink_roundtrip s sl (t link : str) w w1 :
  (forall elem, billy.Join (underlying s) elem = filepath.Join elem) ->
  billy.asSymlinker (underlying s) = Some sl ->
  scope.storesTargetsVerbatim sl ->
  filepath.IsAbs t = true ->
  scope.staysInside t = true ->
  filepath.Clean t <> [filepath.Separator] ->
  Symlink s t link w = (None, w1) ->
  exists r w2,
    Readlink s link w1 = ((r, None), w2)
    /\ r = filepath.Clean t
    /\ (filepath.Clean t = t -> r = t).
Proof.
  intros HJoin Hcap Hkeep Habs Hin Hroot Hsym.
  unfold Symlink in Hsym. rewrite Hcap, Habs in Hsym.
  destruct (billy.Symlink sl (filepath.Separator :: underlyingPath s t)
              (underlyingPath s link) w) as [err w1'] eqn:Hu.
  destruct err as [e|]; [discriminate|]. injection Hsym as ->.
  destruct (Hkeep _ _ _ _ Hu) as (w2 & Hread).
  unfold Readlink. rewrite Hcap, Hread.
  rewrite filepath_facts.IsAbs_rooted. simpl negb. cbv iota.
  unfold underlyingPath at 1, Join, Base. rewrite HJoin.
  rewrite (@filepath_facts.Rel_Join_inside (base s) t Habs Hin).
  assert (Hhead : filepath.Separator :: tl (filepath.Clean t)
                  = filepath.Clean t).
  { destruct t as [|c t']; [discriminate|].
    unfold filepath.IsAbs in Habs. simpl in Habs.
    apply andb_true_iff in Habs as (Hc & _). apply Ascii.eqb_eq in Hc.
    subst c. reflexivity. }
  apply str_eqb_neq in Hroot. rewrite Hroot.
  eexists _, w2. split; [reflexivity|]. split; [exact Hhead|].
  intros Heq. now rewrite Hhead.
Qed.

End Generic.
End subdir_props.

(** ** The view over the in-memory backend *)
Module subdir_runs.
Import testfs subdirfs calls subdir_props.



Lemma Readlink_rerooting_witness :
  billy.asSymlinker (underlying project) = Some symlinker
  /\ Readlink project (txt "link") (linked (txt "/project/notes"))
     = ((txt "/notes", None), linked (txt "/project/notes"))
  /\ exists target,
      billy.Readlink symlinker (underlyingPath project (txt "link"))
                     (linked (txt "/project/notes"))
      = ((target, None), linked (txt "/project/notes"))
      /\ (filepath.IsAbs target = false -> txt "/notes" = target)
      /\ (filepath.IsAbs target = true ->
          filepath.Rel (filepath.Separator :: base project) target
          = (fst (filepath.Rel (filepath.Separator :: base project) target),
             None)
          /\ txt "/notes"
             = filepath.Separator
                 :: fst (filepath.Rel (filepath.Separator :: base project)
                                      target)).
Proof.
  split; [reflexivity|]. split; [vm_compute; reflexivity|].
  apply (Readlink_rerooting project (sl := symlinker) (txt "link")
           (linked (txt "/project/notes"))).
  - reflexivity.
  - vm_compute. reflexivity.
Defined.

Lemma Symlink_translation_witness :
  billy.asSymlinker (underlying project) = Some symlinker
  /\ (filepath.IsAbs (txt "/notes") = true ->
      Symlink project (txt "/notes") (txt "link") sample
      = (None, linked (txt "/project/notes"))).
Proof.
  split; [reflexivity|].
  exact (proj1 (Symlink_translation project (sl := symlinker)
                  (txt "/notes") (txt "link") sample eq_refl)).
Defined.

Lemma TempFile_filename_witness :
  TempFile project (txt "/tmp") (txt "x") sample
  = Returns ((Some tmpHandle, None), tmpWorld)
  /\ exists f,
      billy.TempFile (underlying project)
                     (underlyingPath project (txt "/tmp")) (txt "x") sample
      = ((Some f, None), tmpWorld)
      /\ underlyingFile tmpHandle = Some f
      /\ billy.Filename tmpHandle
         = Join project [txt "/tmp"; filepath.Base (billy.Filename f)].
Proof.
  split; [vm_compute; reflexivity|].
  apply (TempFile_filename project (txt "/tmp") (txt "x") sample).
  vm_compute. reflexivity.
Defined.

Lemma underlying_error_passes_through_witness :
  underlyingCall project (CallStat (txt "missing")) sample
  = Some (Some ErrNotExist, sample)
  /\ exists v,
      perform project (CallStat (txt "missing")) sample
      = Returns ((v, Some (Underlying ErrNotExist)), sample)
      /\ isZero v = true.
Proof.
  split; [reflexivity|].
  apply (underlying_error_passes_through project (CallStat (txt "missing"))
           sample).
  reflexivity.
Defined.

Lemma ReadDir_keeps_listing_witness :
  ReadDir project (txt "/") sample
  = ((fst (fst (ReadDir project (txt "/") sample)), None), sample)
  /\ exists entries,
      billy.ReadDir (underlying project) (underlyingPath project (txt "/"))
                    sample
      = ((entries, None), sample)
      /\ List.length (fst (fst (ReadDir project (txt "/") sample)))
         = List.length entries.
Proof.
  split; [vm_compute; reflexivity|].
  destruct (ReadDir_keeps_listing project (txt "/") sample
              (fis := fst (fst (ReadDir project (txt "/") sample)))
              (w' := sample))
    as (entries & Hu & Hlen & _).
  - vm_compute. reflexivity.
  - exists entries. split; assumption.
Defined.

(** The in-memory backend keeps link targets as given. *)
Lemma testfs_stores_verbatim : scope.storesTargetsVerbatim symlinker.
Proof.
  intros oldname newname w w1 Hsym. simpl in *.
  unfold testfs.Symlink in Hsym.
  destruct (lookup newname (links w)); [discriminate|].
  injection Hsym as <-. exists {| nodes := nodes w;
                                  links := (newname, oldname) :: links w;
                                  temps := temps w |}.
  unfold testfs.Readlink. simpl. now rewrite str_eqb_refl.
Qed.

(** C2, as stated, fails at the root of the view: for [p] empty or [/] the
    name is the last segment of the base, not of [p], and it changes with
    the base.  It fails likewise where the last segment of [p] is [.] or
    [..], which name the directory itself or the one above. *)
Lemma Stat_root_name_counterexample :
  scope.staysInside (txt "") = true
  /\ (exists x,
        Stat project (txt "") sample = ((Some x, None), sample)
        /\ Name x = txt "project"
        /\ Name x <> filepath.Base (txt ""))
  /\ (exists x,
        Stat project (txt "/") sample = ((Some x, None), sample)
        /\ Name x = txt "project"
        /\ Name x <> filepath.Base (txt "/"))
  /\ (exists x,
        Stat (view true (txt "project-other")) (txt "") sample
        = ((Some x, None), sample)
        /\ Name x = txt "project-other")
  /\ (exists x,
        Stat project (txt ".") sample = ((Some x, None), sample)
        /\ Name x = txt "project"
        /\ Name x <> filepath.Base (txt "."))
  /\ scope.staysInside (txt "notes/..") = true
  /\ (exists x,
        Stat project (txt "notes/..") sample = ((Some x, None), sample)
        /\ Name x = txt "project"
        /\ Name x <> filepath.Base (txt "notes/..")).
Proof.
  split; [reflexivity|].
  repeat split; try reflexivity; eexists; (split; [vm_compute; reflexivity|]);
    repeat split; try reflexivity; vm_compute; discriminate.
Qed.

Lemma Stat_name_last_segment_witness :
  (forall elem, billy.Join (underlying project) elem = filepath.Join elem)
  /\ filepath.Base (txt "/notes") <> filepath.dot
  /\ filepath.Base (txt "/notes") <> filepath.dotdot
  /\ filepath.Base (txt "/notes") <> [filepath.Separator]
  /\ Stat project (txt "/notes") sample
     = ((Some (newFileInfo (txt "notes")
                           (Some (snd (node (txt "project/notes") 3 false)))),
         None), sample)
  /\ Name (newFileInfo (txt "notes")
                       (Some (snd (node (txt "project/notes") 3 false))))
     = filepath.Base (txt "/notes").
Proof.
  split; [reflexivity|].
  split; [vm_compute; discriminate|].
  split; [vm_compute; discriminate|].
  split; [vm_compute; discriminate|].
  split; [vm_compute; reflexivity|].
  apply (Stat_name_last_segment project (txt "/notes") sample
           (w' := sample)).
  - reflexivity.
  - vm_compute; discriminate.
  - vm_compute; discriminate.
  - vm_compute; discriminate.
  - vm_compute; reflexivity.
Defined.

(** C6, as stated, fails for the root of the view and for a target that is
    not in cleaned form: [/] is read back as [/.], and [/notes/] as
    [/notes]. *)
Lemma Symlink_Readlink_counterexample :
  (filepath.IsAbs (txt "/") = true
   /\ scope.staysInside (txt "/") = true
   /\ Symlink project (txt "/") (txt "link") sample
      = (None, linked (txt "/project"))
   /\ Readlink project (txt "link") (linked (txt "/project"))
      = ((txt "/.", None), linked (txt "/project"))
   /\ txt "/." <> txt "/")
  /\ (filepath.IsAbs (txt "/notes/") = true
      /\ scope.staysInside (txt "/notes/") = true
      /\ Symlink project (txt "/notes/") (txt "link") sample
         = (None, linked (txt "/project/notes"))
      /\ Readlink project (txt "link") (linked (txt "/project/notes"))
         = ((txt "/notes", None), linked (txt "/project/notes"))
      /\ txt "/notes" <> txt "/notes/").
Proof.
  repeat split; try (vm_compute; reflexivity); vm_compute; discriminate.
Qed.

Lemma Symlink_Readlink_roundtrip_witness :
  (forall elem, billy.Join (underlying project) elem = filepath.Join elem)
  /\ billy.asSymlinker (underlying project) = Some symlinker
  /\ filepath.IsAbs (txt "/notes") = true
  /\ scope.staysInside (txt "/notes") = true
  /\ filepath.Clean (txt "/notes") <> [filepath.Separator]
  /\ Symlink project (txt "/notes") (txt "link") sample
     = (None, linked (txt "/project/notes"))
  /\ exists r w2,
      Readlink project (txt "link") (linked (txt "/project/notes"))
      = ((r, None), w2)
      /\ r = filepath.Clean (txt "/notes")
      /\ (filepath.Clean (txt "/notes") = txt "/notes" -> r = txt "/notes").
Proof.
  split; [reflexivity|]. split; [reflexivity|]. split; [reflexivity|].
  split; [reflexivity|]. split; [vm_compute; discriminate|].
  split; [vm_compute; reflexivity|].
  apply (Symlink_Readlink_roundtrip project (sl := symlinker)
           (txt "/notes") (txt "link") sample).
  - reflexivity.
  - reflexivity.
  - exact testfs_stores_verbatim.
  - reflexivity.
  - reflexivity.
  - vm_compute. discriminate.
  - vm_compute. reflexivity.
Defined.

(** C1: the view strips the text of the prefix wherever it first occurs in
    a name.  With base [project], the child [subproject] of the directory,
    whose name does not begin with the prefix, is listed as [sub]. *)
Theorem ReadDir_strips_inner_occurrence :
  underlyingPath project (txt "/") = txt "project"
  /\ map billy.Name
         (fst (fst (testfs.ReadDir (txt "project") sample)))
     = [txt "subproject"; txt "notes"]
  /\ strings.HasPrefix (txt "subproject") (txt "project") = false
  /\ map (@Name _)
         (fst (fst (ReadDir project (txt "/") sample)))
     = [txt "sub"; txt "notes"].
Proof. vm_compute. repeat split. Qed.

End subdir_runs.

(** ** More path algebra *)
Module path_more.
Import filepath filepath_facts.

Local Abbreviation sep := [Separator].

Lemma IsAbs_cons (c : ascii) (p : str) :
  IsAbs (c :: p) = IsPathSeparator c.
Proof. unfold IsAbs. simpl. apply andb_true_r. Qed.

Lemma IsAbs_app (p q : str) : p <> [] -> IsAbs (p ++ q) = IsAbs p.
Proof. destruct p; [congruence|]. intros _. simpl. now rewrite !IsAbs_cons. Qed.

Lemma fold_dotdots_relative (k : nat) (j : nat) :
  fold_left (cleanStep false) (repeat dotdot k) (repeat dotdot j)
  = repeat dotdot (k + j).
Proof.
  revert j. induction k as [|k IH]; intros j; simpl.
  - reflexivity.
  - rewrite cleanStep_dotdot.
    replace (match repeat dotdot j with
             | [] => [dotdot]
             | top :: _ =>
                 if str_eqb top dotdot
                 then dotdot :: repeat dotdot j else _
             end) with (repeat dotdot (S j)).
    + rewrite IH. now rewrite Nat.add_succ_r.
    + destruct j; reflexivity.
Qed.

(** The elements a cleaned path is written from: the stack in the order of
    writing, names above the leading [..] elements. *)
Lemma relative_written (path : str) :
  exists k R,
    cleanElements false (elements path) = R ++ repeat dotdot k
    /\ Forall isName R.
Proof.
  pose proof (elements_all_sepFree path) as Hfree.
  destruct (relative_stack Hfree) as (k & Hk).
  exists k, (cleanElements true (elements path)). split; [exact Hk|].
  apply rooted_stack_names; [assumption | constructor].
Qed.

Lemma dotdots_sepFree (k : nat) : Forall sepFree (repeat dotdot k).
Proof.
  apply Forall_forall. intros e He. apply repeat_spec in He. subst.
  repeat constructor.
Qed.

Lemma dotdots_nonempty (k : nat) :
  Forall (fun e : str => e <> []) (repeat dotdot k).
Proof.
  apply Forall_forall. intros e He. apply repeat_spec in He. subst.
  discriminate.
Qed.

(** Cleaning a cleaned path in the same mode gives the same stack. *)
Lemma Clean_stack (path : str) :
  path <> [] ->
  cleanElements (IsAbs path) (elements (Clean path))
  = cleanElements (IsAbs path) (elements path).
Proof.
  intros Hp. destruct (IsAbs path) eqn:Habs.
  - now apply reclean.
  - destruct path as [|c path]; [congruence|]. clear Hp.
    rewrite IsAbs_cons in Habs. unfold Clean. rewrite Habs.
    destruct (relative_written (c :: path)) as (k & R & HO & HR).
    rewrite HO, rev_app_distr, rev_repeat.
    set (L := repeat dotdot k ++ rev R).
    assert (Hfold : cleanElements false L = R ++ repeat dotdot k).
    { unfold cleanElements, L. rewrite fold_left_app.
      change (@nil str) with (repeat dotdot 0) at 1.
      rewrite (fold_dotdots_relative k 0), Nat.add_0_r.
      rewrite fold_names by now apply Forall_rev.
      now rewrite rev_involutive. }
    assert (HL1 : Forall sepFree L).
    { apply Forall_app. split; [apply dotdots_sepFree|].
      apply Forall_rev. now apply isName_sepFree. }
    assert (HL2 : Forall (fun e => e <> []) L).
    { apply Forall_app. split; [apply dotdots_nonempty|].
      apply Forall_rev. now apply isName_nonempty. }
    destruct L as [|l0 L'] eqn:HLeq.
    + simpl. rewrite <- Hfold. reflexivity.
    + rewrite <- HLeq in *.
      assert (HJ : strings.Join L sep <> []).
      { apply Join_nonempty; [rewrite HLeq; discriminate | assumption]. }
      destruct (strings.Join L sep) eqn:HJeq; [congruence|].
      rewrite <- HJeq, elements_Join; [exact Hfold | | assumption].
      rewrite HLeq. discriminate.
Qed.

(** A cleaned path is rooted exactly when the path is. *)
Lemma IsAbs_Clean (path : str) : path <> [] -> IsAbs (Clean path) = IsAbs path.
Proof.
  intros Hp. destruct path as [|c path]; [congruence|]. clear Hp.
  rewrite IsAbs_cons. unfold Clean.
  destruct (IsPathSeparator c) eqn:Hc; [reflexivity|].
  destruct (relative_written (c :: path)) as (k & R & HO & HR).
  rewrite HO, rev_app_distr, rev_repeat.
  set (L := repeat dotdot k ++ rev R).
  assert (HL1 : Forall sepFree L).
  { apply Forall_app. split; [apply dotdots_sepFree|].
    apply Forall_rev. now apply isName_sepFree. }
  assert (HL2 : Forall (fun e => e <> []) L).
  { apply Forall_app. split; [apply dotdots_nonempty|].
    apply Forall_rev. now apply isName_nonempty. }
  destruct L as [|l0 L'].
  - reflexivity.
  - inversion HL1 as [|? ? Hl0 _]; inversion HL2 as [|? ? Hne _]; subst.
    destruct l0 as [|x l0]; [congruence|].
    inversion Hl0 as [|? ? Hx _]; subst.
    assert (Hhead : exists rest, strings.Join ((x :: l0) :: L') sep = x :: rest).
    { destruct L'; simpl; eauto. }
    destruct Hhead as (rest & Hh).
    match goal with
    | |- context [strings.Join ?l ?s] =>
        assert (Hh' : strings.Join l s = x :: rest) by exact Hh;
        rewrite Hh'
    end.
    now rewrite IsAbs_cons.
Qed.

Lemma Clean_nonempty (path : str) : Clean path <> [].
Proof.
  destruct path as [|c path]; [discriminate|]. unfold Clean.
  destruct (IsPathSeparator c); [discriminate|].
  destruct (strings.Join _ _); discriminate.
Qed.

(** Two paths of the same mode with the same stack clean to the same. *)
Lemma Clean_by_stack (p q : str) :
  p <> [] -> q <> [] -> IsAbs p = IsAbs q ->
  cleanElements (IsAbs p) (elements p) = cleanElements (IsAbs q) (elements q) ->
  Clean p = Clean q.
Proof.
  intros Hp Hq Habs Hst.
  destruct p as [|c p]; [congruence|]. destruct q as [|d q]; [congruence|].
  rewrite !IsAbs_cons in *. unfold Clean. now rewrite Hst, Habs.
Qed.

(** [Clean] is idempotent. *)
Lemma Clean_idempotent (path : str) : Clean (Clean path) = Clean path.
Proof.
  destruct path as [|c path]; [reflexivity|].
  apply Clean_by_stack.
  - apply Clean_nonempty.
  - discriminate.
  - now apply IsAbs_Clean.
  - rewrite IsAbs_Clean by discriminate. now apply Clean_stack.
Qed.

(** Cleaning the first part of a path beforehand changes nothing. *)
Lemma Clean_prefix_clean (x c : str) :
  x <> [] -> Clean (Clean x ++ Separator :: c) = Clean (x ++ Separator :: c).
Proof.
  intros Hx. pose proof (Clean_nonempty x) as Hcx.
  apply Clean_by_stack.
  - destruct (Clean x); [congruence | discriminate].
  - destruct x; [congruence | discriminate].
  - rewrite !IsAbs_app by assumption. now apply IsAbs_Clean.
  - rewrite !IsAbs_app by assumption. rewrite IsAbs_Clean by assumption.
    rewrite !elements_app_sep, !cleanElements_app.
    now rewrite Clean_stack.
Qed.

(** Joining onto a join is joining all three. *)
Lemma Join_Join (a b c : str) :
  filepath.Join [filepath.Join [a; b]; c] = filepath.Join [a; b; c].
Proof.
  destruct a as [|a0 a].
  - destruct b as [|b0 b]; [reflexivity|].
    change (filepath.Join [[]; b0 :: b]) with (Clean (b0 :: b)).
    change (filepath.Join [[]; b0 :: b; c])
      with (Clean ((b0 :: b) ++ Separator :: c)).
    pose proof (Clean_nonempty (b0 :: b)) as Hne.
    destruct (Clean (b0 :: b)) as [|j0 j] eqn:HJ; [congruence|].
    change (filepath.Join [j0 :: j; c])
      with (Clean ((j0 :: j) ++ Separator :: c)).
    rewrite <- HJ. apply Clean_prefix_clean. discriminate.
  - change (filepath.Join [a0 :: a; b])
      with (Clean ((a0 :: a) ++ Separator :: b)).
    change (filepath.Join [a0 :: a; b; c])
      with (Clean ((a0 :: a) ++ Separator :: b ++ Separator :: c)).
    set (x := (a0 :: a) ++ Separator :: b).
    pose proof (Clean_nonempty x) as Hne.
    destruct (Clean x) as [|j0 j] eqn:HJ; [congruence|].
    change (filepath.Join [j0 :: j; c])
      with (Clean ((j0 :: j) ++ Separator :: c)).
    rewrite <- HJ. rewrite Clean_prefix_clean by (unfold x; discriminate).
    unfold x. now rewrite <- app_assoc.
Qed.

(** A leading separator of the second part is of no effect below a
    non-empty first part. *)
Lemma Join_leading_separator (a p : str) :
  a <> [] ->
  filepath.Join [a; Separator :: p] = filepath.Join [a; p].
Proof.
  intros Ha. destruct a as [|a0 a]; [congruence|].
  change (filepath.Join [a0 :: a; Separator :: p])
    with (Clean ((a0 :: a) ++ Separator :: Separator :: p)).
  change (filepath.Join [a0 :: a; p])
    with (Clean ((a0 :: a) ++ Separator :: p)).
  apply Clean_by_stack; try discriminate.
  - reflexivity.
  - rewrite !elements_app_sep, elements_rooted, !cleanElements_app.
    reflexivity.
Qed.

(** [Base] is never empty: it is the separator or one path element. *)
Lemma Base_element (p : str) :
  Base p <> [] /\ (Base p = sep \/ sepFree (Base p)).
Proof.
  unfold Base. destruct p as [|c p].
  - split; [discriminate|]. right. repeat constructor.
  - set (l := takeWhile (fun c0 => negb (IsPathSeparator c0))
                (dropWhile IsPathSeparator (rev (c :: p)))).
    assert (Hl : sepFree (rev l)).
    { apply Forall_rev. eapply Forall_impl; [|apply takeWhile_Forall].
      intros a Ha. now apply negb_true_iff. }
    destruct (rev l) as [|x xs].
    + split; [discriminate | now left].
    + split; [discriminate | now right].
Qed.

(** *** [Rel] between rooted paths *)

Lemma relLoop_cur (bs ts : list str) :
  fst (fst (relLoop bs ts)) = [] \/ In (fst (fst (relLoop bs ts))) bs.
Proof.
  revert ts. induction bs as [|b bs IH]; intros ts.
  - now left.
  - destruct ts as [|t ts]; [now left|]. cbn -[exhausted In].
    destruct (exhausted (b :: bs) || exhausted (t :: ts)); [now left|].
    destruct (str_eqb t b).
    + destruct (IH ts) as [H|H]; [now left | right; now right].
    + right. now left.
Qed.

(** [Rel] from a rooted path to a rooted path never fails. *)
Lemma Rel_rooted (b t : str) :
  snd (Rel (Separator :: b) (Separator :: t)) = None.
Proof.
  unfold Rel. rewrite !Clean_rooted.
  set (B := cleanElements true (elements b)).
  set (T := cleanElements true (elements t)).
  assert (HB : Forall isName B).
  { apply rooted_stack_names; [apply elements_all_sepFree | constructor]. }
  destruct (str_eqb _ _); [reflexivity|].
  assert (Hnd : str_eqb (Separator :: strings.Join (rev B) sep) dot = false)
    by (apply str_eqb_neq; discriminate).
  rewrite Hnd, !IsAbs_rooted. simpl negb. cbv iota.
  pose proof (relLoop_cur
                (elements (Separator :: strings.Join (rev B) sep))
                (elements (Separator :: strings.Join (rev T) sep))) as Hcur.
  destruct (relLoop _ _) as [[cur bs] ts]. cbn [fst] in Hcur.
  assert (Hdd : str_eqb cur dotdot = false).
  { apply str_eqb_neq. intros ->.
    destruct Hcur as [Hcur|Hcur]; [discriminate|].
    rewrite elements_rooted in Hcur. destruct Hcur as [Hcur|Hcur];
      [discriminate|].
    destruct (rev B) as [|y ys] eqn:Hrev.
    - simpl in Hcur. destruct Hcur as [Hcur|[]]. discriminate.
    - rewrite <- Hrev in Hcur. rewrite elements_Join in Hcur.
      + apply in_rev in Hcur. rewrite Forall_forall in HB.
        apply HB in Hcur. destruct Hcur as (_ & _ & Hcur & _). congruence.
      + rewrite Hrev. discriminate.
      + apply Forall_rev. now apply isName_sepFree. }
  rewrite Hdd. destruct (strings.Join bs sep); reflexivity.
Qed.

(** *** Containment *)

Lemma Clean_cons (c : ascii) (q : str) :
  Clean (c :: q)
  = let out := strings.Join
                 (rev (cleanElements (IsPathSeparator c) (elements (c :: q))))
                 sep in
    if IsPathSeparator c then Separator :: out
    else match out with
         | [] => dot
         | _ :: _ => out
         end.
Proof. reflexivity. Qed.

(** A path that stays inside, joined below a base whose cleaned form is
    neither [.] nor the root, is the cleaned base, alone or followed by a
    separator and more. *)
Lemma Join_below_base (base p : str) :
  base <> [] -> Clean base <> dot -> Clean base <> sep ->
  scope.staysInside p = true ->
  exists rest,
    filepath.Join [base; p] = Clean base ++ rest
    /\ (rest = [] \/ exists rest', rest = Separator :: rest').
Proof.
  intros Hb Hdot Hroot Hin.
  destruct base as [|b0 base]; [congruence|]. clear Hb.
  change (filepath.Join [b0 :: base; p])
    with (Clean ((b0 :: base) ++ Separator :: p)).
  set (T := cleanElements false (elements p)).
  assert (HnoT : ~ In dotdot T).
  { unfold scope.staysInside in Hin. rewrite forallb_forall in Hin.
    intros Hd. apply Hin in Hd. now rewrite str_eqb_refl in Hd. }
  assert (HT : Forall isName T).
  { replace T with (cleanElements true (elements p)).
    - apply rooted_stack_names; [apply elements_all_sepFree | constructor].
    - unfold cleanElements at 1.
      rewrite (clean_on_stack (elements p) true [] HnoT). apply app_nil_r. }
  rewrite (Clean_cons b0 base) in *.
  change ((b0 :: base) ++ Separator :: p)
    with (b0 :: (base ++ Separator :: p)).
  rewrite (Clean_cons b0 (base ++ Separator :: p)).
  change (b0 :: (base ++ Separator :: p))
    with ((b0 :: base) ++ Separator :: p).
  set (r := IsPathSeparator b0) in *.
  rewrite elements_app_sep, cleanElements_app.
  rewrite (clean_on_stack (elements p) r _ HnoT). fold T.
  set (B := cleanElements r (elements (b0 :: base))) in *.
  rewrite rev_app_distr.
  assert (HBne : Forall (fun e : str => e <> []) (rev B)).
  { apply Forall_rev. unfold B. destruct r.
    - apply isName_nonempty.
      apply rooted_stack_names; [apply elements_all_sepFree | constructor].
    - destruct (relative_written (b0 :: base)) as (k & R & -> & HR).
      apply Forall_app. split;
        [now apply isName_nonempty | apply dotdots_nonempty]. }
  destruct (rev T) as [|t1 T1] eqn:HrevT.
  - exists []. rewrite !app_nil_r. now split; [|left].
  - destruct (rev B) as [|b1 B1] eqn:HrevB.
    + exfalso. destruct r; [now apply Hroot | now apply Hdot].
    + rewrite Join_app by discriminate.
      set (JB := strings.Join (b1 :: B1) sep) in *.
      set (JT := strings.Join (t1 :: T1) sep).
      assert (HJB : JB <> []) by (apply Join_nonempty; [discriminate|assumption]).
      exists (Separator :: JT). split; [|right; eauto].
      destruct r; [reflexivity|].
      destruct JB as [|j JB'] eqn:HJBeq; [congruence|]. reflexivity.
Qed.

Lemma strings_Join_app (l m : list str) :
  l <> [] -> m <> [] ->
  strings.Join (l ++ m) sep
  = strings.Join l sep ++ Separator :: strings.Join m sep.
Proof. apply Join_app. Qed.

(** Joining onto a join is joining all the parts. *)
Lemma Join_Join_list (l m : list str) :
  filepath.Join (filepath.Join l :: m) = filepath.Join (l ++ m).
Proof.
  induction l as [|a l IH].
  - reflexivity.
  - destruct a as [|a0 a]; [exact IH|].
    change (filepath.Join ((a0 :: a) :: l))
      with (Clean (strings.Join ((a0 :: a) :: l) sep)).
    change (filepath.Join (((a0 :: a) :: l) ++ m))
      with (Clean (strings.Join (((a0 :: a) :: l) ++ m) sep)).
    set (X := strings.Join ((a0 :: a) :: l) sep).
    assert (HX : X <> []).
    { unfold X. destruct l; discriminate. }
    pose proof (Clean_nonempty X) as Hne.
    destruct (Clean X) as [|j0 j] eqn:HJ; [congruence|].
    change (filepath.Join ((j0 :: j) :: m))
      with (Clean (strings.Join ((j0 :: j) :: m) sep)).
    rewrite <- HJ. destruct m as [|m0 m].
    + rewrite app_nil_r. apply Clean_idempotent.
    + rewrite Join_cons by discriminate.
      rewrite strings_Join_app by discriminate. fold X.
      now apply Clean_prefix_clean.
Qed.

(** A second part without a name or [..] adds nothing below a non-empty
    first part. *)
Lemma Join_nameless (a p : str) :
  a <> [] ->
  Forall (fun e => e = [] \/ e = dot) (elements p) ->
  filepath.Join [a; p] = Clean a.
Proof.
  intros Ha Hp. destruct a as [|a0 a]; [congruence|].
  change (filepath.Join [a0 :: a; p])
    with (Clean ((a0 :: a) ++ Separator :: p)).
  apply Clean_by_stack; try discriminate.
  - reflexivity.
  - rewrite IsAbs_app by discriminate.
    rewrite elements_app_sep, cleanElements_app.
    generalize (cleanElements (IsAbs (a0 :: a)) (elements (a0 :: a))).
    induction Hp as [|e es [->| ->] _ IH]; intros out; simpl; auto.
Qed.

End path_more.

(** ** [strings.Replace] with an empty replacement *)
Module replace_facts.
Import strings.

Lemma HasPrefix_app (old rest : str) : HasPrefix (old ++ rest) old = true.
Proof.
  induction old as [|o old IH]; simpl; [reflexivity|].
  now rewrite Ascii.eqb_refl, IH.
Qed.

Lemma HasPrefix_inv (s old : str) :
  HasPrefix s old = true -> exists rest, s = old ++ rest.
Proof.
  revert s. induction old as [|o old IH]; intros s Hp; simpl in *.
  - now exists s.
  - destruct s as [|c s]; [discriminate|].
    apply andb_true_iff in Hp as (Hc & Hp). apply Ascii.eqb_eq in Hc.
    subst. destruct (IH _ Hp) as (rest & ->). now exists rest.
Qed.

Lemma replaceLoop_done (s old new : str) : replaceLoop s old new 0 0 = s.
Proof. induction s as [|c s IH]; simpl; [reflexivity | now rewrite IH]. Qed.

Lemma replaceLoop_skip (a rest old new : str) (n : Z) :
  replaceLoop (a ++ rest) old new (List.length a) n
  = replaceLoop rest old new 0 n.
Proof.
  induction a as [|x a IH]; simpl.
  - destruct rest; reflexivity.
  - exact IH.
Qed.

(** A leading occurrence is removed. *)
Lemma Replace_leading (old rest : str) :
  Replace (old ++ rest) old [] 1 = rest.
Proof.
  unfold Replace. destruct old as [|o old]; [reflexivity|].
  replace (str_eqb (o :: old) []) with false
    by (symmetry; apply str_eqb_neq; discriminate).
  simpl orb. cbv iota.
  change ((o :: old) ++ rest) with (o :: (old ++ rest)).
  cbn [replaceLoop]. change (o :: old ++ rest) with ((o :: old) ++ rest).
  rewrite HasPrefix_app. simpl negb. simpl andb. cbv iota.
  change (List.length (o :: old) - 1) with (List.length old - 0).
  rewrite Nat.sub_0_r. change (1 - 1)%Z with 0%Z. rewrite app_nil_l.
  rewrite replaceLoop_skip. apply replaceLoop_done.
Qed.

Lemma replaceLoop_absent (s old new : str) (n : Z) :
  (forall a b, s <> a ++ old ++ b) -> replaceLoop s old new 0 n = s.
Proof.
  induction s as [|c s IH]; intros Habs; simpl; [reflexivity|].
  destruct (HasPrefix (c :: s) old) eqn:Hp.
  - apply HasPrefix_inv in Hp as (rest & Hp).
    exfalso. apply (Habs [] rest). exact Hp.
  - rewrite andb_false_r. f_equal. apply IH.
    intros a b Heq. apply (Habs (c :: a) b). simpl. now rewrite Heq.
Qed.

(** A string in which [old] does not occur is left as it is. *)
Lemma Replace_absent (s old : str) (n : Z) :
  (forall a b, s <> a ++ old ++ b) -> Replace s old [] n = s.
Proof.
  intros Habs. unfold Replace.
  destruct (str_eqb old [] || (n =? 0)%Z); [reflexivity|].
  destruct old as [|o old]; [|now apply replaceLoop_absent].
  exfalso. apply (Habs [] s). reflexivity.
Qed.

(** A separator-free name holds no occurrence of a text with a separator. *)
Lemma Replace_sepFree (name old : str) (n : Z) :
  filepath.sepFree name -> In filepath.Separator old ->
  Replace name old [] n = name.
Proof.
  intros Hfree Hin. apply Replace_absent. intros a b ->.
  unfold filepath.sepFree in Hfree. rewrite Forall_forall in Hfree.
  assert (Hs : In filepath.Separator (a ++ old ++ b)).
  { apply in_or_app. right. apply in_or_app. now left. }
  apply Hfree in Hs. discriminate.
Qed.

End replace_facts.

(** ** More on the view over an arbitrary backend *)
Module view_more.
Import subdirfs calls.

Section Generic.
Context {W E F I : Type} `{billy.File F} `{billy.FileInfo I}.
Implicit Types (s : subdirFs W E F I) (w : W).

(** The backend joins paths with [filepath.Join]. *)
Local Abbreviation joinsLikeFilepath s :=
  (forall elem, billy.Join (underlying s) elem = filepath.Join elem).

Lemma underlyingPath_filepath s (p : str) :
  joinsLikeFilepath s -> underlyingPath s p = filepath.Join [base s; p].
Proof. intros HJoin. unfold underlyingPath, Join, Base. apply HJoin. Qed.

(** X1: a path through a nested view is translated to the join of the
    base, the subdirectory and the path. *)
Theorem underlyingPath_Dir s (sub p : str) :
  joinsLikeFilepath s ->
  underlyingPath (Dir s sub) p = filepath.Join [base s; sub; p].
Proof.
  intros HJoin.
  rewrite underlyingPath_filepath by exact HJoin.
  change (base (Dir s sub)) with (underlyingPath s sub).
  rewrite underlyingPath_filepath by exact HJoin.
  apply path_more.Join_Join.
Qed.

Lemma underlyingPath_Dir_flat s (sub p : str) :
  joinsLikeFilepath s -> base s <> [] ->
  underlyingPath (Dir s sub) p
  = underlyingPath s (sub ++ filepath.Separator :: p).
Proof.
  intros HJoin Hb.
  rewrite (@underlyingPath_filepath (Dir s sub)) by exact HJoin.
  change (base (Dir s sub)) with (underlyingPath s sub).
  rewrite !underlyingPath_filepath by exact HJoin.
  rewrite path_more.Join_Join.
  destruct (base s) as [|b0 b]; [congruence|].
  change (filepath.Join [b0 :: b; sub; p])
    with (filepath.Clean
            ((b0 :: b) ++ filepath.Separator
                       :: (sub ++ filepath.Separator :: p))).
  reflexivity.
Qed.

(** X2: below a non-empty base, [Stat], [ReadDir], [Remove] and
    [MkdirAll] through [Dir(sub)] at [p] are the same calls as through the
    view itself at [sub/p]. *)
Theorem Dir_composes s (sub p : str) (perm : billy.FileMode) w :
  joinsLikeFilepath s -> base s <> [] ->
  let q := sub ++ filepath.Separator :: p in
  Stat (Dir s sub) p w = Stat s q w
  /\ ReadDir (Dir s sub) p w = ReadDir s q w
  /\ Remove (Dir s sub) p w = Remove s q w
  /\ MkdirAll (Dir s sub) p perm w = MkdirAll s q perm w.
Proof.
  intros HJoin Hb q.
  pose proof (@underlyingPath_Dir_flat s sub p HJoin Hb) as Hp. fold q in Hp.
  unfold Stat, ReadDir, Remove, MkdirAll.
  change (Join (Dir s sub) [base (Dir s sub); p])
    with (underlyingPath (Dir s sub) p).
  change (Join s [base s; q]) with (underlyingPath s q).
  rewrite Hp. repeat split.
Qed.

Lemma underlyingPath_leading_separator s (p : str) :
  joinsLikeFilepath s -> base s <> [] ->
  underlyingPath s (filepath.Separator :: p) = underlyingPath s p.
Proof.
  intros HJoin Hb. rewrite !underlyingPath_filepath by exact HJoin.
  now apply path_more.Join_leading_separator.
Qed.

(** X3: below a non-empty base a leading separator of a view path is of
    no effect: [/p] and [p] give the same [Stat], [ReadDir], [Remove],
    [MkdirAll], [Readlink], [Rename] and [Symlink] (for the link name). *)
Theorem leading_separator_ignored s (p p2 oldname : str)
        (perm : billy.FileMode) w :
  joinsLikeFilepath s -> base s <> [] ->
  let rooted x := filepath.Separator :: x in
  Stat s (rooted p) w = Stat s p w
  /\ ReadDir s (rooted p) w = ReadDir s p w
  /\ Remove s (rooted p) w = Remove s p w
  /\ MkdirAll s (rooted p) perm w = MkdirAll s p perm w
  /\ Readlink s (rooted p) w = Readlink s p w
  /\ Rename s (rooted p) (rooted p2) w = Rename s p p2 w
  /\ Symlink s oldname (rooted p) w = Symlink s oldname p w.
Proof.
  intros HJoin Hb rooted.
  pose proof (@underlyingPath_leading_separator s p HJoin Hb) as Hp.
  pose proof (@underlyingPath_leading_separator s p2 HJoin Hb) as Hp2.
  unfold Stat, ReadDir, Remove, MkdirAll, Readlink, Rename, Symlink, rooted.
  change (Join s [base s; filepath.Separator :: p])
    with (underlyingPath s (filepath.Separator :: p)).
  change (Join s [base s; p]) with (underlyingPath s p).
  rewrite Hp, Hp2. repeat split.
Qed.

(** X4: the name [Stat] reports is never empty, and is the separator or a
    single path element. *)
Theorem Stat_name_element s (p : str) w (x : fileInfo I) w' :
  Stat s p w = ((Some x, None), w') ->
  Name x <> []
  /\ (Name x = [filepath.Separator] \/ filepath.sepFree (Name x)).
Proof.
  unfold Stat. intros Hrun.
  destruct (billy.Stat (underlying s) (underlyingPath s p) w)
    as [[info err] w1].
  destruct err as [e|]; [discriminate|].
  inversion Hrun; subst. apply path_more.Base_element.
Qed.

(** X5: when every entry of the underlying listing is named by a path that
    begins with the translated directory, [ReadDir] reports each name with
    that beginning cut off. *)
Theorem ReadDir_cuts_leading_directory s (path : str) w (entries : list I) w' :
  billy.ReadDir (underlying s) (underlyingPath s path) w
  = ((entries, None), w') ->
  forallb (fun e => strings.HasPrefix (billy.Name e) (underlyingPath s path))
          entries = true ->
  ReadDir s path w
  = ((map (fun e =>
             newFileInfo
               (skipn (List.length (underlyingPath s path)) (billy.Name e))
               (Some e))
          entries,
      None), w').
Proof.
  intros Hu Hall. unfold ReadDir. rewrite Hu. do 2 f_equal.
  rewrite forallb_forall in Hall. apply map_ext_in. intros e He.
  apply Hall in He. apply replace_facts.HasPrefix_inv in He as (rest & Hrest).
  rewrite Hrest, replace_facts.Replace_leading.
  now rewrite skipn_app, skipn_all, Nat.sub_diag.
Qed.

(** X6: when the translated directory holds a separator and the underlying
    listing names its entries by single elements, [ReadDir] reports every
    name as it is. *)
Theorem ReadDir_keeps_element_names s (path : str) w (entries : list I) w' :
  billy.ReadDir (underlying s) (underlyingPath s path) w
  = ((entries, None), w') ->
  In filepath.Separator (underlyingPath s path) ->
  Forall (fun e => filepath.sepFree (billy.Name e)) entries ->
  ReadDir s path w
  = ((map (fun e => newFileInfo (billy.Name e) (Some e)) entries, None), w').
Proof.
  intros Hu Hsep Hall. unfold ReadDir. rewrite Hu. do 2 f_equal.
  rewrite Forall_forall in Hall. apply map_ext_in. intros e He.
  now rewrite replace_facts.Replace_sepFree by auto.
Qed.


(** X7: [Readlink] adds no failure of its own: whenever the underlying
    [Readlink] succeeds, so does the view's (the error branch of
    [filepath.Rel] is never taken), and the result is absolute exactly when
    the underlying target is. *)
Theorem Readlink_succeeds_with_underlying s sl (name target : str) w w' :
  billy.asSymlinker (underlying s) = Some sl ->
  billy.Readlink sl (underlyingPath s name) w = ((target, None), w') ->
  exists r,
    Readlink s name w = ((r, None), w')
    /\ filepath.IsAbs r = filepath.IsAbs target.
Proof.
  intros Hcap Hu. unfold Readlink. rewrite Hcap, Hu.
  destruct (filepath.IsAbs target) eqn:Habs; simpl negb; cbv iota.
  - destruct target as [|c target]; [discriminate|].
    rewrite path_more.IsAbs_cons in Habs.
    apply filepath_facts.IsPathSeparator_eq in Habs. subst c.
    pose proof (path_more.Rel_rooted (base s) target) as Hrel.
    destruct (filepath.Rel (filepath.Separator :: base s)
                           (filepath.Separator :: target)) as [rel err].
    simpl in Hrel. subst err.
    eexists. split; [reflexivity|]. reflexivity.
  - eexists. split; [reflexivity | exact Habs].
Qed.

(** X8: a relative link target comes back as it was given: on a backend
    that keeps link targets, [Readlink] after a successful [Symlink] with a
    relative target returns that target. *)
Theorem relative_link_roundtrip s sl (t link : str) w w1 :
  billy.asSymlinker (underlying s) = Some sl ->
  scope.storesTargetsVerbatim sl ->
  filepath.IsAbs t = false ->
  Symlink s t link w = (None, w1) ->
  exists w2, Readlink s link w1 = ((t, None), w2).
Proof.
  intros Hcap Hkeep Hrel Hsym.
  unfold Symlink in Hsym. rewrite Hcap, Hrel in Hsym.
  destruct (billy.Symlink sl t (underlyingPath s link) w) as [err w1'] eqn:Hu.
  destruct err as [e|]; [discriminate|]. injection Hsym as ->.
  destruct (Hkeep _ _ _ _ Hu) as (w2 & Hread).
  exists w2. unfold Readlink. now rewrite Hcap, Hread, Hrel.
Qed.


(** X10: a path that stays inside is translated below the base: when the
    cleaned base is neither [.] nor the root, the translated path is the
    cleaned base, alone or followed by a separator and more. *)
Theorem underlyingPath_below_base s (p : str) :
  joinsLikeFilepath s ->
  base s <> [] ->
  filepath.Clean (base s) <> filepath.dot ->
  filepath.Clean (base s) <> [filepath.Separator] ->
  scope.staysInside p = true ->
  exists rest,
    underlyingPath s p = filepath.Clean (base s) ++ rest
    /\ (rest = [] \/ exists rest', rest = filepath.Separator :: rest').
Proof.
  intros HJoin Hb Hdot Hroot Hin.
  rewrite underlyingPath_filepath by exact HJoin.
  now apply path_more.Join_below_base.
Qed.

(** X11: every translated path is in cleaned form; it is empty only when
    base and path both are. *)
Theorem underlyingPath_cleaned s (p : str) :
  joinsLikeFilepath s ->
  (base s = [] /\ p = [] /\ underlyingPath s p = [])
  \/ filepath.Clean (underlyingPath s p) = underlyingPath s p.
Proof.
  intros HJoin. rewrite underlyingPath_filepath by exact HJoin.
  destruct (base s) as [|b0 b].
  - destruct p as [|c p]; [now left|]. right.
    apply path_more.Clean_idempotent.
  - right. apply path_more.Clean_idempotent.
Qed.

(** X13: at the root of the view ([p] empty, [/], [.] or any path without
    a name or [..]) [Stat] reports the last element of the cleaned base. *)
Theorem Stat_root_name s (p : str) w (x : fileInfo I) w' :
  joinsLikeFilepath s -> base s <> [] ->
  Forall (fun e => e = [] \/ e = filepath.dot) (filepath.elements p) ->
  Stat s p w = ((Some x, None), w') ->
  Name x = filepath.Base (filepath.Clean (base s)).
Proof.
  intros HJoin Hb Hp Hrun. unfold Stat in Hrun.
  destruct (billy.Stat (underlying s) (underlyingPath s p) w)
    as [[info err] w1].
  destruct err as [e|]; [discriminate|].
  inversion Hrun; subst. unfold Name. simpl.
  rewrite underlyingPath_filepath by exact HJoin.
  now rewrite path_more.Join_nameless.
Qed.

(** X14: the base of a view reached through any chain of [Dir] calls is
    the join of the first base and all the subdirectories. *)
Theorem Dir_chain_base s (sub : str) (subs : list str) :
  joinsLikeFilepath s ->
  base (fold_left Dir (sub :: subs) s) = filepath.Join (base s :: sub :: subs).
Proof.
  intros HJoin. revert s sub HJoin.
  induction subs as [|q subs IH]; intros s sub HJoin.
  - simpl. now apply underlyingPath_filepath.
  - change (fold_left Dir (sub :: q :: subs) s)
      with (fold_left Dir (q :: subs) (Dir s sub)).
    rewrite IH by exact HJoin.
    change (base (Dir s sub)) with (underlyingPath s sub).
    rewrite underlyingPath_filepath by exact HJoin.
    apply (path_more.Join_Join_list [base s; sub] (q :: subs)).
Qed.

(** X12: the name [TempFile] reports ends with the leaf name the
    underlying filesystem chose, when that is a name. *)
Theorem TempFile_keeps_leaf s (dir prefix : str) w (h : file W E F I) w' (f : F) :
  joinsLikeFilepath s ->
  TempFile s dir prefix w = Returns ((Some h, None), w') ->
  underlyingFile h = Some f ->
  filepath.Base (billy.Filename f) <> filepath.dot ->
  filepath.Base (billy.Filename f) <> filepath.dotdot ->
  filepath.Base (billy.Filename f) <> [filepath.Separator] ->
  filepath.Base (billy.Filename h) = filepath.Base (billy.Filename f).
Proof.
  intros HJoin Hrun Hf Hdot Hdd Hsep. unfold TempFile in Hrun.
  destruct (billy.TempFile (underlying s) (underlyingPath s dir) prefix w)
    as [[f' err] w1].
  destruct err as [e|]; [discriminate|].
  destruct f' as [f'|]; [|discriminate].
  inversion Hrun; subst. simpl in Hf. injection Hf as ->. simpl.
  unfold Join. rewrite HJoin.
  set (leaf := filepath.Base (billy.Filename f)) in *.
  assert (Hleaf : filepath.Base leaf = leaf).
  { destruct (path_more.Base_element (billy.Filename f)) as (Hne & [Hs|Hfree]);
      fold leaf in Hne, Hs || fold leaf in Hne, Hfree; [congruence|].
    apply (filepath_facts.Base_suffix (pre := [])); auto. }
  rewrite filepath_facts.Base_Join; rewrite Hleaf; auto.
Qed.

End Generic.
End view_more.

(** ** More runs of the view over the in-memory backend *)
Module view_more_runs.
Import testfs fixtures subdirfs calls view_more.

Lemma underlyingPath_Dir_witness :
  (forall elem, billy.Join (underlying srv) elem = filepath.Join elem)
  /\ underlyingPath (Dir srv (txt "www")) (txt "index")
     = filepath.Join [base srv; txt "www"; txt "index"].
Proof.
  split; [reflexivity|].
  apply (underlyingPath_Dir srv (txt "www") (txt "index")). reflexivity.
Defined.

Lemma Dir_composes_witness :
  (forall elem, billy.Join (underlying srv) elem = filepath.Join elem)
  /\ base srv <> []
  /\ Stat (Dir srv (txt "www")) (txt "index") nested
     = Stat srv (txt "www/index") nested
  /\ ReadDir (Dir srv (txt "www")) (txt "logs") nested
     = ReadDir srv (txt "www/logs") nested.
Proof.
  split; [reflexivity|]. split; [discriminate|].
  split.
  - exact (proj1 (Dir_composes srv (txt "www") (txt "index") 493%N nested
                    (fun _ => eq_refl) ltac:(discriminate))).
  - exact (proj1 (proj2 (Dir_composes srv (txt "www") (txt "logs") 493%N
                           nested (fun _ => eq_refl) ltac:(discriminate)))).
Defined.

Lemma leading_separator_ignored_witness :
  (forall elem, billy.Join (underlying srv) elem = filepath.Join elem)
  /\ base srv <> []
  /\ Stat srv (txt "/www") nested = Stat srv (txt "www") nested.
Proof.
  split; [reflexivity|]. split; [discriminate|].
  exact (proj1 (leading_separator_ignored srv (txt "www") (txt "www")
                  (txt "www") 493%N nested
                  (fun _ => eq_refl) ltac:(discriminate))).
Defined.

Lemma Stat_name_element_witness :
  Stat srv (txt "www/index") nested
  = ((Some (newFileInfo (txt "index")
                        (Some (snd (node (txt "srv/www/index") 9 false)))),
      None), nested)
  /\ Name (newFileInfo (txt "index")
                       (Some (snd (node (txt "srv/www/index") 9 false))))
     <> [].
Proof.
  split; [vm_compute; reflexivity|].
  apply (Stat_name_element srv (txt "www/index") nested (w' := nested)).
  vm_compute. reflexivity.
Defined.

Lemma ReadDir_cuts_leading_directory_witness :
  billy.ReadDir (underlying etc) (underlyingPath etc (txt "")) nested
  = (([snd (node (txt "etc/etc.conf") 4 false)], None), nested)
  /\ ReadDir etc (txt "") nested
     = ((map (fun e =>
                newFileInfo
                  (skipn (List.length (underlyingPath etc (txt "")))
                         (billy.Name e))
                  (Some e))
             [snd (node (txt "etc/etc.conf") 4 false)],
         None), nested)
  /\ map (@Name _) (fst (fst (ReadDir etc (txt "") nested))) = [txt ".conf"].
Proof.
  split; [vm_compute; reflexivity|].
  split; [|vm_compute; reflexivity].
  apply (ReadDir_cuts_leading_directory etc (txt "") nested
           (entries := [snd (node (txt "etc/etc.conf") 4 false)])
           (w' := nested)).
  - vm_compute. reflexivity.
  - vm_compute. reflexivity.
Defined.

Lemma ReadDir_keeps_element_names_witness :
  billy.ReadDir (underlying srv) (underlyingPath srv (txt "www")) nested
  = (([snd (node (txt "srv/www/index") 9 false);
       snd (node (txt "srv/www/logs") 0 true)], None), nested)
  /\ In filepath.Separator (underlyingPath srv (txt "www"))
  /\ ReadDir srv (txt "www") nested
     = ((map (fun e => newFileInfo (billy.Name e) (Some e))
             [snd (node (txt "srv/www/index") 9 false);
              snd (node (txt "srv/www/logs") 0 true)],
         None), nested).
Proof.
  split; [vm_compute; reflexivity|].
  split; [vm_compute; tauto|].
  apply (ReadDir_keeps_element_names srv (txt "www") nested (w' := nested)).
  - vm_compute. reflexivity.
  - vm_compute. tauto.
  - repeat constructor.
Defined.

Lemma Readlink_succeeds_with_underlying_witness :
  billy.asSymlinker (underlying srv) = Some symlinker
  /\ billy.Readlink symlinker (underlyingPath srv (txt "link"))
                    (nestedLinked (txt "/outside/the/view"))
     = ((txt "/outside/the/view", None),
        nestedLinked (txt "/outside/the/view"))
  /\ exists r,
      Readlink srv (txt "link") (nestedLinked (txt "/outside/the/view"))
      = ((r, None), nestedLinked (txt "/outside/the/view"))
      /\ filepath.IsAbs r = filepath.IsAbs (txt "/outside/the/view").
Proof.
  split; [reflexivity|]. split; [vm_compute; reflexivity|].
  apply (Readlink_succeeds_with_underlying srv (sl := symlinker)
           (txt "link") (nestedLinked (txt "/outside/the/view"))).
  - reflexivity.
  - vm_compute. reflexivity.
Defined.

Lemma relative_link_roundtrip_witness :
  billy.asSymlinker (underlying srv) = Some symlinker
  /\ filepath.IsAbs (txt "www/index") = false
  /\ Symlink srv (txt "www/index") (txt "link") nested
     = (None, nestedLinked (txt "www/index"))
  /\ exists w2,
      Readlink srv (txt "link") (nestedLinked (txt "www/index"))
      = ((txt "www/index", None), w2).
Proof.
  split; [reflexivity|]. split; [reflexivity|].
  split; [vm_compute; reflexivity|].
  apply (relative_link_roundtrip srv (sl := symlinker) (txt "www/index")
           (txt "link") nested).
  - reflexivity.
  - exact subdir_runs.testfs_stores_verbatim.
  - reflexivity.
  - vm_compute. reflexivity.
Defined.


Lemma underlyingPath_below_base_witness :
  (forall elem, billy.Join (underlying srv) elem = filepath.Join elem)
  /\ base srv <> []
  /\ filepath.Clean (base srv) <> filepath.dot
  /\ filepath.Clean (base srv) <> [filepath.Separator]
  /\ scope.staysInside (txt "www/../www/index") = true
  /\ exists rest,
      underlyingPath srv (txt "www/../www/index")
      = filepath.Clean (base srv) ++ rest
      /\ (rest = [] \/ exists rest', rest = filepath.Separator :: rest').
Proof.
  split; [reflexivity|]. split; [discriminate|].
  split; [vm_compute; discriminate|]. split; [vm_compute; discriminate|].
  split; [reflexivity|].
  apply (underlyingPath_below_base srv (txt "www/../www/index")).
  - reflexivity.
  - discriminate.
  - vm_compute; discriminate.
  - vm_compute; discriminate.
  - reflexivity.
Defined.

Lemma underlyingPath_cleaned_witness :
  (forall elem, billy.Join (underlying srv) elem = filepath.Join elem)
  /\ ((base srv = [] /\ txt "www//./logs/" = []
       /\ underlyingPath srv (txt "www//./logs/") = [])
      \/ filepath.Clean (underlyingPath srv (txt "www//./logs/"))
         = underlyingPath srv (txt "www//./logs/")).
Proof.
  split; [reflexivity|].
  apply (underlyingPath_cleaned srv (txt "www//./logs/")). reflexivity.
Defined.

Lemma TempFile_keeps_leaf_witness :
  (forall elem, billy.Join (underlying srv) elem = filepath.Join elem)
  /\ TempFile srv (txt "www") (txt "up") nested
     = Returns ((Some uploadHandle, None), uploadWorld)
  /\ underlyingFile uploadHandle = Some uploadFile
  /\ filepath.Base (billy.Filename uploadFile) <> filepath.dot
  /\ filepath.Base (billy.Filename uploadFile) <> filepath.dotdot
  /\ filepath.Base (billy.Filename uploadFile) <> [filepath.Separator]
  /\ filepath.Base (billy.Filename uploadHandle)
     = filepath.Base (billy.Filename uploadFile).
Proof.
  split; [reflexivity|]. split; [vm_compute; reflexivity|].
  split; [reflexivity|].
  split; [vm_compute; discriminate|]. split; [vm_compute; discriminate|].
  split; [vm_compute; discriminate|].
  apply (TempFile_keeps_leaf srv (txt "www") (txt "up") nested
           (h := uploadHandle) (w' := uploadWorld) (f := uploadFile)).
  - reflexivity.
  - vm_compute. reflexivity.
  - reflexivity.
  - vm_compute; discriminate.
  - vm_compute; discriminate.
  - vm_compute; discriminate.
Defined.

Lemma Stat_root_name_witness :
  (forall elem, billy.Join (underlying srv) elem = filepath.Join elem)
  /\ base srv <> []
  /\ Forall (fun e => e = [] \/ e = filepath.dot)
            (filepath.elements (txt "/./"))
  /\ Stat srv (txt "/./") nested
     = ((Some (newFileInfo (txt "srv") (Some (snd (node (txt "srv") 0 true)))),
         None), nested)
  /\ Name (newFileInfo (txt "srv") (Some (snd (node (txt "srv") 0 true))))
     = filepath.Base (filepath.Clean (base srv)).
Proof.
  split; [reflexivity|]. split; [discriminate|].
  split; [vm_compute;
    repeat (constructor; [first [left; reflexivity | right; reflexivity]|]);
    constructor|].
  split; [vm_compute; reflexivity|].
  apply (Stat_root_name srv (txt "/./") nested (w' := nested)).
  - reflexivity.
  - discriminate.
  - vm_compute;
    repeat (constructor; [first [left; reflexivity | right; reflexivity]|]);
    constructor.
  - vm_compute. reflexivity.
Defined.

Lemma Dir_chain_base_witness :
  (forall elem, billy.Join (underlying srv) elem = filepath.Join elem)
  /\ base (fold_left Dir [txt "www"; txt "../www"; txt "logs"] srv)
     = filepath.Join [base srv; txt "www"; txt "../www"; txt "logs"].
Proof.
  split; [reflexivity|].
  apply (Dir_chain_base srv (txt "www") [txt "../www"; txt "logs"]).
  reflexivity.
Defined.

End view_more_runs.
